(** * wsl2backup: a shallow embedding of [wsl2backup.go]

    The program lists the WSL distributions with [wsl -l -v], optionally
    terminates the one to back up, exports it, and compresses the export with
    ZIP or with the NTFS [compact] tool.

    Go strings and byte slices are byte sequences: they are modelled as
    [string] (a list of 8-bit [ascii]).  The functions of Go's standard
    library and of [golang.org/x/text] the program calls are modelled first,
    the program's own functions after them, in the order of the source. *)

From Stdlib Require Import ZArith List Bool Lia Ascii String.
Import ListNotations.

Local Open Scope string_scope.
Local Open Scope Z_scope.

(** ** Bytes *)

Definition byte_val (c : ascii) : Z := Z.of_N (N_of_ascii c).
Definition byte_of (z : Z) : ascii := ascii_of_N (Z.to_N z).

(** A Go [error] is modelled by its message. *)
Definition error := string.

Definition CR : ascii := byte_of 13.
Definition LF : ascii := byte_of 10.
Definition CRLF : string := String CR (String LF "").

(** ** Package [unicode/utf8] *)

Module utf8.

Definition RuneError : Z := 0xFFFD.
Definition RuneSelf : Z := 0x80.
Definition MaxRune : Z := 0x10FFFF.

Definition isSurrogate (r : Z) : bool := (0xD800 <=? r) && (r <=? 0xDFFF).

(** [RuneLen]: the number of bytes of the encoding, [-1] when [r] is not a
    valid value to encode. *)
Definition RuneLen (r : Z) : Z :=
  if r <? 0 then -1
  else if r <=? 0x7F then 1
  else if r <=? 0x7FF then 2
  else if isSurrogate r then -1
  else if r <=? 0xFFFF then 3
  else if r <=? MaxRune then 4
  else -1.

Definition cont (r : Z) (shift : Z) : ascii :=
  byte_of (Z.lor 0x80 (Z.land (Z.shiftr r shift) 0x3F)).

Definition encode3 (r : Z) : string :=
  String (byte_of (Z.lor 0xE0 (Z.shiftr r 12)))
    (String (cont r 6) (String (cont r 0) "")).

(** [EncodeRune] (as [AppendRune] on an empty slice): an invalid rune is
    written as [RuneError]. *)
Definition EncodeRune (r : Z) : string :=
  if (0 <=? r) && (r <=? 0x7F) then String (byte_of r) ""
  else if (0 <=? r) && (r <=? 0x7FF) then
    String (byte_of (Z.lor 0xC0 (Z.shiftr r 6))) (String (cont r 0) "")
  else if (r <? 0) || (MaxRune <? r) || isSurrogate r then encode3 RuneError
  else if r <=? 0xFFFF then encode3 r
  else
    String (byte_of (Z.lor 0xF0 (Z.shiftr r 18)))
      (String (cont r 12) (String (cont r 6) (String (cont r 0) ""))).

Definition isCont (c : ascii) : bool :=
  (0x80 <=? byte_val c) && (byte_val c <=? 0xBF).

Definition between (lo hi : Z) (c : ascii) : bool :=
  (lo <=? byte_val c) && (byte_val c <=? hi).

Definition low6 (c : ascii) : Z := Z.land (byte_val c) 0x3F.

(** The accepted range of the second byte, by first byte (Go's
    [acceptRanges] indexed through [first]). *)
Definition accept (s0 : Z) : Z * Z :=
  if s0 =? 0xE0 then (0xA0, 0xBF)
  else if s0 =? 0xED then (0x80, 0x9F)
  else if s0 =? 0xF0 then (0x90, 0xBF)
  else if s0 =? 0xF4 then (0x80, 0x8F)
  else (0x80, 0xBF).

(** [DecodeRuneInString]: the first rune of [s] and its width in bytes;
    [(RuneError, 0)] on the empty string and [(RuneError, 1)] on an
    encoding that is invalid or cut short. *)
Definition DecodeRuneInString (s : string) : Z * nat :=
  match s with
  | "" => (RuneError, 0%nat)
  | String c0 t0 =>
    let s0 := byte_val c0 in
    if s0 <? RuneSelf then (s0, 1%nat)
    else if (s0 <? 0xC2) || (0xF4 <? s0) then (RuneError, 1%nat)
    else
      let '(lo, hi) := accept s0 in
      match t0 with
      | "" => (RuneError, 1%nat)
      | String c1 t1 =>
        if negb (between lo hi c1) then (RuneError, 1%nat)
        else if s0 <? 0xE0 then
          (Z.lor (Z.shiftl (Z.land s0 0x1F) 6) (low6 c1), 2%nat)
        else
          match t1 with
          | "" => (RuneError, 1%nat)
          | String c2 t2 =>
            if negb (isCont c2) then (RuneError, 1%nat)
            else if s0 <? 0xF0 then
              (Z.lor (Z.shiftl (Z.land s0 0x0F) 12)
                 (Z.lor (Z.shiftl (low6 c1) 6) (low6 c2)), 3%nat)
            else
              match t2 with
              | "" => (RuneError, 1%nat)
              | String c3 _ =>
                if negb (isCont c3) then (RuneError, 1%nat)
                else
                  (Z.lor (Z.shiftl (Z.land s0 0x07) 18)
                     (Z.lor (Z.shiftl (low6 c1) 12)
                        (Z.lor (Z.shiftl (low6 c2) 6) (low6 c3))), 4%nat)
              end
          end
      end
  end.

(** [for _, r := range s]: the runes of [s], each with the bytes it was
    decoded from.  [skip] counts the bytes of the current rune still to
    pass over. *)
Fixpoint rangeFrom (skip : nat) (s : string) : list (Z * string) :=
  match s with
  | "" => []
  | String _ s' =>
    match skip with
    | S k => rangeFrom k s'
    | O =>
      let '(r, size) := DecodeRuneInString s in
      (r, substring 0 size s) :: rangeFrom (size - 1) s'
    end
  end.

Definition range (s : string) : list (Z * string) := rangeFrom 0 s.

End utf8.

(** ** Package [unicode/utf16] *)

Module utf16.

Definition surr1 : Z := 0xD800.
Definition surr2 : Z := 0xDC00.
Definition surr3 : Z := 0xE000.
Definition surrSelf : Z := 0x10000.
Definition replacementChar : Z := 0xFFFD.

Definition IsSurrogate (r : Z) : bool := (surr1 <=? r) && (r <? surr3).

Definition DecodeRune (r1 r2 : Z) : Z :=
  if (surr1 <=? r1) && (r1 <? surr2) && (surr2 <=? r2) && (r2 <? surr3)
  then Z.lor (Z.shiftl (r1 - surr1) 10) (r2 - surr2) + surrSelf
  else replacementChar.

End utf16.


(** ** Package [unicode] of the standard library: white space *)

Module stdunicode.

(** [unicode.IsSpace]: the Latin-1 cases, then the [White_Space] table. *)
Definition IsSpace (r : Z) : bool :=
  if (0 <=? r) && (r <=? 0xFF) then
    ((0x09 <=? r) && (r <=? 0x0D)) || (r =? 0x20) || (r =? 0x85) || (r =? 0xA0)
  else
    (r =? 0x1680) || ((0x2000 <=? r) && (r <=? 0x200A))
    || (r =? 0x2028) || (r =? 0x2029) || (r =? 0x202F) || (r =? 0x205F)
    || (r =? 0x3000).

End stdunicode.

(** ** Package [strings] *)

Module strings.

(** The rest of [s] after [prefix], when [s] starts with it. *)
Fixpoint trimPrefix (prefix s : string) : option string :=
  match prefix with
  | "" => Some s
  | String p prefix' =>
    match s with
    | "" => None
    | String c s' => if Ascii.eqb p c then trimPrefix prefix' s' else None
    end
  end.

(** [Cut]: the text before and after the first instance of [sep] in [s]. *)
Fixpoint Cut (s sep : string) : option (string * string) :=
  match trimPrefix sep s with
  | Some after => Some ("", after)
  | None =>
    match s with
    | "" => None
    | String c s' =>
      match Cut s' sep with
      | Some (before, after) => Some (String c before, after)
      | None => None
      end
    end
  end.

(** [Index]: the byte offset of the first instance, [-1] when there is none. *)
Definition Index (s substr : string) : Z :=
  match Cut s substr with
  | Some (before, _) => Z.of_nat (String.length before)
  | None => -1
  end.

Definition Contains (s substr : string) : bool := 0 <=? Index s substr.

(** The loop of [genSplit] for a non-empty separator: cut at the first
    instance and go on with what follows it.  Every round removes at least
    the separator, so [String.length s] rounds are never used up. *)
Fixpoint splitLoop (rounds : nat) (s sep : string) : list string :=
  match rounds with
  | O => [s]
  | S rounds' =>
    match Cut s sep with
    | None => [s]
    | Some (before, after) => before :: splitLoop rounds' after sep
    end
  end.

(** [Split s sep], for the non-empty separators the program uses. *)
Definition Split (s sep : string) : list string :=
  splitLoop (String.length s) s sep.

(** [Join]: the elements with [sep] between them. *)
Fixpoint Join (elems : list string) (sep : string) : string :=
  match elems with
  | [] => ""
  | [e] => e
  | e :: rest => e ++ sep ++ Join rest sep
  end.

(** The loop of [Replace] for a non-empty [old]: at most [rounds]
    replacements, left to right, without overlap. *)
Fixpoint replaceLoop (rounds : nat) (s old new : string) : string :=
  match rounds with
  | O => s
  | S rounds' =>
    match Cut s old with
    | None => s
    | Some (before, after) =>
      before ++ new ++ replaceLoop rounds' after old new
    end
  end.

(** [Replace s old new n]: the first [n] instances replaced, all of them when
    [n < 0]. *)
Definition Replace (s old new : string) (n : Z) : string :=
  if String.eqb old new || (n =? 0) then s
  else replaceLoop (if n <? 0 then String.length s else Z.to_nat n) s old new.

(** [FieldsFunc] over the runes of the string: [span] is the field being
    read (a field has at least one byte, so the empty [span] stands for no
    open field). *)
Fixpoint fieldsLoop (f : Z -> bool) (span : string) (rs : list (Z * string))
  : list string :=
  match rs with
  | [] => if String.eqb span "" then [] else [span]
  | (r, bytes) :: rs' =>
    if f r then
      if String.eqb span "" then fieldsLoop f "" rs'
      else span :: fieldsLoop f "" rs'
    else fieldsLoop f (span ++ bytes) rs'
  end.

Definition FieldsFunc (s : string) (f : Z -> bool) : list string :=
  fieldsLoop f "" (utf8.range s).

(** [Fields]: split around runs of white space ([unicode.IsSpace]; the ASCII
    fast path of the library computes the same fields). *)
Definition Fields (s : string) : list string :=
  FieldsFunc s stdunicode.IsSpace.

Section Folding.

(** The general case of [EqualFold] walks the orbit of the smaller rune
    under [unicode.SimpleFold] until it reaches or passes the larger one.
    The fold tables are data of Go's [unicode] package: the walk is taken as
    a parameter, called with the smaller rune first. *)
Variable foldsTo : Z -> Z -> bool.

Definition equalFoldRune (sr tr : Z) : bool :=
  if tr =? sr then true
  else
    let lo := Z.min sr tr in
    let hi := Z.max sr tr in
    if hi <? utf8.RuneSelf then
      (0x41 <=? lo) && (lo <=? 0x5A) && (hi =? lo + 0x20)
    else foldsTo lo hi.

Fixpoint equalFoldLoop (s t : list (Z * string)) : bool :=
  match s, t with
  | [], [] => true
  | (sr, _) :: s', (tr, _) :: t' => equalFoldRune sr tr && equalFoldLoop s' t'
  | _, _ => false
  end.

(** [EqualFold]: equality of the two strings, read as UTF-8, under simple
    case folding. *)
Definition EqualFold (s t : string) : bool :=
  equalFoldLoop (utf8.range s) (utf8.range t).

End Folding.

End strings.

(** ** Package [golang.org/x/text/encoding/unicode] *)

Module unicode.

Inductive Endianness := BigEndian | LittleEndian.

Inductive BOMPolicy := IgnoreBOM | UseBOM | ExpectBOM.

Definition acceptBOM (p : BOMPolicy) : bool :=
  match p with IgnoreBOM => false | _ => true end.

Definition requireBOM (p : BOMPolicy) : bool :=
  match p with ExpectBOM => true | _ => false end.

Definition ErrMissingBOM : error := "encoding: missing byte order mark".

(** A transformer, applied to the whole input at once (the reader of package
    [transform] feeds it until the input ends, [atEOF] set on the last
    call): the bytes written and the error that stopped it, if any. *)
Definition Transformer := string -> string * option error.

Definition codeUnit (e : Endianness) (b0 b1 : ascii) : Z :=
  match e with
  | BigEndian => byte_val b0 * 256 + byte_val b1
  | LittleEndian => byte_val b1 * 256 + byte_val b0
  end.

(** Named as in the library; the range is that of the second unit of a
    surrogate pair. *)
Definition isHighSurrogate (r : Z) : bool := (0xDC00 <=? r) && (r <=? 0xDFFF).

Definition checked (r : Z) : Z :=
  if utf8.RuneLen r <? 0 then utf8.RuneError else r.

(** The loop of [utf16Decoder.Transform] at the end of the input: one rune
    per code unit or surrogate pair; a unit that is no valid rune and a
    single trailing byte give [RuneError]. *)
Fixpoint decodeLoop (e : Endianness) (src : string) : list Z :=
  match src with
  | "" => []
  | String _ "" => [utf8.RuneError]
  | String b0 (String b1 rest) =>
    let r := codeUnit e b0 b1 in
    if utf16.IsSurrogate r then
      match rest with
      | String b2 (String b3 rest') =>
        let x := codeUnit e b2 b3 in
        if isHighSurrogate x
        then checked (utf16.DecodeRune r x) :: decodeLoop e rest'
        else checked r :: decodeLoop e rest
      | _ => checked r :: decodeLoop e rest
      end
    else checked r :: decodeLoop e rest
  end.

Definition encodeRunes (rs : list Z) : string :=
  fold_right (fun r out => utf8.EncodeRune r ++ out) "" rs.

Definition startsWith (b0 b1 : Z) (src : string) : bool :=
  match src with
  | String c0 (String c1 _) => (byte_val c0 =? b0) && (byte_val c1 =? b1)
  | _ => false
  end.

(** [src[n:]]. *)
Fixpoint drop (n : nat) (s : string) : string :=
  match n, s with
  | O, _ => s
  | S n', String _ s' => drop n' s'
  | S _, "" => ""
  end.

(** [UTF16(e, p).NewDecoder()]. *)
Definition UTF16 (e : Endianness) (p : BOMPolicy) : Transformer :=
  fun src =>
    if (String.length src <? 2)%nat && requireBOM p then ("", Some ErrMissingBOM)
    else if (String.length src =? 0)%nat then ("", None)
    else if (2 <=? String.length src)%nat && acceptBOM p then
      if startsWith 0xFE 0xFF src
      then (encodeRunes (decodeLoop BigEndian (drop 2 src)), None)
      else if startsWith 0xFF 0xFE src
      then (encodeRunes (decodeLoop LittleEndian (drop 2 src)), None)
      else if requireBOM p then ("", Some ErrMissingBOM)
      else (encodeRunes (decodeLoop e src), None)
    else (encodeRunes (decodeLoop e src), None).

(** [transform.Nop]. *)
Definition Nop : Transformer := fun src => (src, None).

Definition startsWithUTF8BOM (src : string) : bool :=
  match src with
  | String c0 (String c1 (String c2 _)) =>
    (byte_val c0 =? 0xEF) && (byte_val c1 =? 0xBB) && (byte_val c2 =? 0xBF)
  | _ => false
  end.

(** [BOMOverride(fallback)]: a byte order mark at the start of the input
    selects the decoder (UTF-16LE, UTF-16BE or UTF-8) and is dropped;
    without one the fallback decodes the whole input. *)
Definition BOMOverride (fallback : Transformer) : Transformer :=
  fun src =>
    let '(current, bomSize) :=
      if startsWith 0xFF 0xFE src then (UTF16 LittleEndian IgnoreBOM, 2%nat)
      else if startsWith 0xFE 0xFF src then (UTF16 BigEndian IgnoreBOM, 2%nat)
      else if startsWithUTF8BOM src then (Nop, 3%nat)
      else (fallback, 0%nat) in
    if (bomSize <? String.length src)%nat then current (drop bomSize src)
    else ("", None).

End unicode.


(** ** The world the program runs in *)

(** A command handed to [exec.Command]. *)
Record Invocation := { prog : string; argv : list string }.

(** How the run of an external command ends, by the call that reports it. *)
Inductive ProcOutcome :=
| PipeFailed (e : error)
| StartFailed (e : error)
| ReadFailed (e : error)
| Exited (stdout : string) (status : option error).

(** The files, by path, with their bytes. *)
Definition Files := string -> option string.

Definition writeFile (fs : Files) (path : string) (data : option string) : Files :=
  fun p => if String.eqb p path then data else fs p.

Inductive FsOp :=
| OpCreate (path : string)
| OpZipEntry (archive name : string)
| OpOpen (path : string)
| OpCopy (archive path : string)
| OpZipClose (archive : string)
| OpClose (path : string)
| OpRemove (path : string).

(** A call of package [log], with its arguments as passed. *)
Inductive LogEntry :=
| Printf (format : string) (args : list string)
| Println (args : list string)
| Print (args : list string).

(** What the program has done so far: the commands it ran, what it logged,
    the files, and its operations on them; all in the order of time. *)
Record World := {
  spawned : list Invocation;
  logged : list LogEntry;
  files : Files;
  fsops : list FsOp
}.

(** What the program does not decide: the external commands (their outcome
    and what they do to the files, given every command run so far, the
    current one last), the failures of the file operations, the clock, the
    archive encoding, and the fold tables of [strings.EqualFold]. *)
Record Env := {
  host : list Invocation -> Files -> ProcOutcome * Files;
  createFails : string -> option error;
  entryFails : string -> option error;
  openFails : string -> option error;
  readFails : string -> option nat;
  zipCloseFails : string -> option error;
  closeFails : string -> option error;
  removeFails : string -> option error;
  zipArchive : list (string * string) -> string;
  now : string;
  foldsTo : Z -> Z -> bool
}.

(** The command line flags. *)
Record Flags := {
  distro : string;
  outfile : string;
  outfmt : string;
  outzip : bool;
  term : bool;
  compact : bool;
  keep : bool
}.

(** How [main] ends. *)
Inductive Termination :=
| Fatal (entry : LogEntry)
| Exit (code : Z)
| Returned.

(** *** State passing *)

Definition M (A : Type) : Type := World -> A * World.

Definition ret {A : Type} (a : A) : M A := fun w => (a, w).

Definition bind {A B : Type} (c : M A) (k : A -> M B) : M B :=
  fun w => let '(a, w') := c w in k a w'.

Notation "x <- c ;; k" := (bind c (fun x => k))
  (at level 61, c at next level, right associativity).
Notation "' p <- c ;; k" := (bind c (fun x => let 'p := x in k))
  (at level 61, p pattern, c at next level, right associativity).
Notation "c ;;; k" := (bind c (fun _ => k))
  (at level 61, right associativity).

Definition logTo (e : LogEntry) : M unit :=
  fun w => (tt, {| spawned := spawned w; logged := logged w ++ [e];
                   files := files w; fsops := fsops w |}).

Definition fsop (o : FsOp) : M unit :=
  fun w => (tt, {| spawned := spawned w; logged := logged w;
                   files := files w; fsops := fsops w ++ [o] |}).

Definition setFile (path : string) (data : option string) : M unit :=
  fun w => (tt, {| spawned := spawned w; logged := logged w;
                   files := writeFile (files w) path data; fsops := fsops w |}).

Definition readFile (path : string) : M (option string) :=
  fun w => (files w path, w).

Definition nl : string := String LF "".
Definition dq : string := String (byte_of 34) "".

(** The text of the operating system's error for a missing file is its
    own; only the path is kept. *)
Definition notExist (path : string) : error := "open " ++ path ++ ": file does not exist".

(** The mark of the default distribution in the listing. *)
Definition marker : string := "* ".

Definition terminating : string :=
  "Found %v distro but it is running, terminating it as requested..." ++ nl.

Definition exporting : string :=
  "Exporting distribution %q for backup to file %q in %v format..." ++ nl.

Section Program.

Variable env : Env.
Variable cfg : Flags.

(** [exec.Command(name, args...)] run to its end. *)
Definition run (c : Invocation) : M ProcOutcome :=
  fun w =>
    let history := (spawned w ++ [c])%list in
    let '(o, fs) := host env history (files w) in
    (o, {| spawned := history; logged := logged w; files := fs; fsops := fsops w |}).

(** *** WSL and compact commands *)

Definition wsl : string := "wsl".
Definition wslList : string := "-l -v".
Definition compactexe : string := "compact".

(** [wslCmd]: lines 39-65. *)
Definition wslCmd (flags : string) : M (string * option error) :=
  let args := strings.Split flags " " in
  o <- run {| prog := wsl; argv := args |} ;;
  match o with
  | PipeFailed e => ret ("", Some e)
  | StartFailed e => ret ("", Some e)
  | ReadFailed e => ret ("", Some e)
  | Exited result (Some e) => ret (result, Some e)
  | Exited result None =>
    let win16 := unicode.UTF16 unicode.LittleEndian unicode.IgnoreBOM in
    let utf16bom := unicode.BOMOverride win16 in
    ret (utf16bom result)
  end.

Record dinfo := { name : string; state : string; version : string }.

(** The record of one line of the listing: lines 82-88. *)
Definition lineInfo (d : string) : dinfo :=
  let d := strings.Replace d marker "" (-1) in
  let fields := strings.Fields d in
  match fields with
  | [f0; f1; f2] => {| name := f0; state := f1; version := f2 |}
  | _ => {| name := ""; state := ""; version := "" |}
  end.

Definition busyError (n : string) : error :=
  "found distribution " ++ n
  ++ " but it is running and -t flag not specified so it will not be terminated".

(** What [distroCheck] returns; [None] when the model ran out of [fuel]
    before the recursion ended. *)
Definition Checked := option (bool * option error).

(** The body of the [if] at line 91, for a record whose name matched:
    lines 92-107.  [again] is the recursive call of line 104. *)
Definition matched (again : M Checked) (nfo : dinfo) : M Checked :=
  if String.eqb (state nfo) "Stopped" then ret (Some (true, None))
  else if term cfg then
    logTo (Printf terminating [name nfo]) ;;;
    '(_, err) <- wslCmd ("--terminate " ++ name nfo) ;;
    match err with
    | Some e => ret (Some (false, Some e))
    | None => again
    end
  else ret (Some (false, Some (busyError (name nfo)))).

(** The loop of lines 76-109 from index [i] on, and line 111 after it. *)
Fixpoint rangeDistros (again : M Checked) (distro : string) (i : nat)
  (distros : list string) : M Checked :=
  match distros with
  | [] => ret (Some (false, None))
  | d :: rest =>
    if (i =? 0)%nat then rangeDistros again distro (S i) rest
    else
      let nfo := lineInfo d in
      if strings.EqualFold (foldsTo env) (name nfo) distro
      then matched again nfo
      else rangeDistros again distro (S i) rest
  end.

(** [distroCheck]: lines 68-112. *)
Fixpoint distroCheck (fuel : nat) (distro : string) : M Checked :=
  match fuel with
  | O => ret None
  | S fuel' =>
    '(res, err) <- wslCmd wslList ;;
    match err with
    | Some e => ret (Some (false, Some e))
    | None =>
      let distros := strings.Split res CRLF in
      rangeDistros (distroCheck fuel' distro) distro 0 distros
    end
  end.

(** [wslExport]: lines 114-131. *)
Definition wslExport (distro format of_ : string) : M (option error) :=
  let fmtarg := if String.eqb format "vhdx" then " --vhd" else "" in
  let cmd := "--export " ++ distro ++ fmtarg ++ " " ++ of_ in
  logTo (Printf exporting [distro; of_; format]) ;;;
  '(res, err) <- wslCmd cmd ;;
  match err with
  | Some e => logTo (Printf ("Failed: %s" ++ nl) [res]) ;;; ret (Some e)
  | None => logTo (Printf "Export suceeded: %s" [res]) ;;; ret None
  end.

(** *** The file operations of [zipFile] and [main]

    Each records itself in [fsops] and fails when the environment says so.
    What the archive writer has flushed to the archive file before its
    [Close] is not modelled: the file holds the archive once [Close]
    succeeds. *)

(** [os.Create]: the file exists and is empty afterwards. *)
Definition osCreate (path : string) : M (option error) :=
  fsop (OpCreate path) ;;;
  match createFails env path with
  | Some e => ret (Some e)
  | None => setFile path (Some "") ;;; ret None
  end.

(** [zip.Writer.Create]: the header of a new entry of the archive. *)
Definition zipCreate (archive entry : string) : M (option error) :=
  fsop (OpZipEntry archive entry) ;;;
  ret (entryFails env entry).

(** [os.Open]: the bytes of the file, as the reads will return them. *)
Definition osOpen (path : string) : M (string * option error) :=
  fsop (OpOpen path) ;;;
  data <- readFile path ;;
  match data with
  | None => ret ("", Some (notExist path))
  | Some bytes =>
    match openFails env path with
    | Some e => ret ("", Some e)
    | None => ret (bytes, None)
    end
  end.

(** [io.Copy(cf, uf)]: the bytes that reach the entry, and the error of the
    read that stopped the copy early, if any. *)
Definition ioCopy (archive path bytes : string) : M (string * option error) :=
  fsop (OpCopy archive path) ;;;
  match readFails env path with
  | Some n => ret (substring 0 n bytes, Some ("read " ++ path ++ ": input/output error"))
  | None => ret (bytes, None)
  end.

(** [zip.Writer.Close]: the archive, with its entries, is written out. *)
Definition zipClose (archive : string) (entries : list (string * string))
  : M (option error) :=
  fsop (OpZipClose archive) ;;;
  match zipCloseFails env archive with
  | Some e => ret (Some e)
  | None => setFile archive (Some (zipArchive env entries)) ;;; ret None
  end.

(** [File.Close]. *)
Definition fileClose (path : string) : M (option error) :=
  fsop (OpClose path) ;;;
  ret (closeFails env path).

(** [os.Remove]. *)
Definition osRemove (path : string) : M (option error) :=
  fsop (OpRemove path) ;;;
  match removeFails env path with
  | Some e => ret (Some e)
  | None => setFile path None ;;; ret None
  end.

(** [zipFile]: lines 133-169.  The result of [io.Copy] at line 157 is
    dropped, as in the source. *)
Definition zipFile (fn : string) : M (option error) :=
  let zof := fn ++ ".zip" in
  logTo (Printf ("Compressing %s file to %s..." ++ nl) [fn; zof]) ;;;
  err <- osCreate zof ;;
  match err with
  | Some e => ret (Some ("error creating zip file: " ++ e))
  | None =>
    err <- zipCreate zof fn ;;
    match err with
    | Some e => ret (Some ("error creating zip directory: " ++ e))
    | None =>
      '(uf, err) <- osOpen fn ;;
      match err with
      | Some e => ret (Some ("error opening exported file: " ++ e))
      | None =>
        '(written, _) <- ioCopy zof fn uf ;;
        err <- zipClose zof [(fn, written)] ;;
        match err with
        | Some e => ret (Some e)
        | None =>
          err <- fileClose fn ;;
          match err with
          | Some e => ret (Some e)
          | None =>
            logTo (Println ["Compression completed successfully."]) ;;;
            ret None
          end
        end
      end
    end
  end.

Definition compactedPhrase : string :=
  "1 files within 1 directories were compressed".

(** [compactFile]: lines 173-196. *)
Definition compactFile (fn : string) : M (option error) :=
  o <- run {| prog := compactexe; argv := ["/c"; fn] |} ;;
  match o with
  | PipeFailed e => ret (Some e)
  | StartFailed e => ret (Some e)
  | ReadFailed e => ret (Some e)
  | Exited _ (Some e) => ret (Some e)
  | Exited result None =>
    if strings.Contains result compactedPhrase then
      logTo (Println ["Compression completed successfully."]) ;;;
      ret None
    else ret (Some ("compact failed: " ++ result))
  end.

(** [outputName]: lines 200-202; [now env] is the formatted time. *)
Definition outputName (format distro : string) : string :=
  now env ++ "-" ++ distro ++ "." ++ format.

Definition zipFormatMessage : string :=
  "To output in zip format, use --z flag. --f flag is to provide the export file format (vhdx or tar).".

Definition badFormatMessage : string :=
  "Output format %q not supported. Supported formats are " ++ dq ++ "vhdx" ++ dq
  ++ " (default) and " ++ dq ++ "tar" ++ dq ++ ".".

Definition conflictMessage : string :=
  "Invalid arguments: Choose --z for ZIP or --c for Compact, but not both.".

Definition notFoundMessage : string :=
  "Distro %q not found in WSL, check installed distribution with "
  ++ dq ++ "%s %s" ++ dq.

(** The [switch] of lines 208-214: the fatal message, if the format is
    refused. *)
Definition formatRefused : option LogEntry :=
  if String.eqb (outfmt cfg) "vhdx" || String.eqb (outfmt cfg) "tar" then None
  else if String.eqb (outfmt cfg) "zip" then Some (Print [zipFormatMessage])
  else Some (Printf badFormatMessage [outfmt cfg]).

(** Lines 242-260: what follows a successful export. *)
Definition postProcess (of_ : string) : M Termination :=
  if outzip cfg then
    err <- zipFile of_ ;;
    match err with
    | Some e => ret (Fatal (Print [e]))
    | None =>
      (if negb (keep cfg) then osRemove of_ ;;; ret tt else ret tt) ;;;
      ret (Exit 0)
    end
  else if compact cfg then
    err <- compactFile of_ ;;
    match err with
    | Some e => ret (Fatal (Printf "Error compacting file: %v" [e]))
    | None => ret Returned
    end
  else ret Returned.

(** [main]: lines 204-261; [None] when [distroCheck] ran out of [fuel]. *)
Definition main (fuel : nat) : M (option Termination) :=
  match formatRefused with
  | Some entry => ret (Some (Fatal entry))
  | None =>
    if outzip cfg && compact cfg then ret (Some (Fatal (Printf conflictMessage [])))
    else
      r <- distroCheck fuel (distro cfg) ;;
      match r with
      | None => ret None
      | Some (_, Some err) => ret (Some (Fatal (Print [err])))
      | Some (d, None) =>
        if negb d then
          ret (Some (Fatal (Printf notFoundMessage [distro cfg; wsl; wslList])))
        else
          let of_ :=
            if String.eqb (outfile cfg) "" then outputName (outfmt cfg) (distro cfg)
            else outfile cfg in
          err <- wslExport (distro cfg) (outfmt cfg) of_ ;;
          match err with
          | Some e => ret (Some (Fatal (Print [e])))
          | None => t <- postProcess of_ ;; ret (Some t)
          end
      end
  end.

End Program.

(** ** Views of the program used in the statements *)

(** The command [wslCmd] runs for the argument string [flags]. *)
Definition wslInvocation (flags : string) : Invocation :=
  {| prog := wsl; argv := strings.Split flags " " |}.

(** The decoding step of [wslCmd], lines 61-64. *)
Definition decodeOutput : unicode.Transformer :=
  unicode.BOMOverride (unicode.UTF16 unicode.LittleEndian unicode.IgnoreBOM).

(** The little-endian byte order mark. *)
Definition bomLE : string := String (byte_of 0xFF) (String (byte_of 0xFE) "").

(** The records of a decoded listing, in its order: the loop of
    [distroCheck] skips the first line and builds one record per line after
    it. *)
Definition registry (res : string) : list dinfo :=
  map lineInfo (tl (strings.Split res CRLF)).

(** The test of line 91. *)
Definition nameMatches (env : Env) (distro : string) (nfo : dinfo) : bool :=
  strings.EqualFold (foldsTo env) (name nfo) distro.

(** The test of line 86, on the line as read. *)
Definition threeFields (d : string) : bool :=
  (List.length (strings.Fields (strings.Replace d marker "" (-1))) =? 3)%nat.

(** The command [wslExport] builds at line 120. *)
Definition exportCommand (distro format of_ : string) : string :=
  "--export " ++ distro ++ (if String.eqb format "vhdx" then " --vhd" else "")
  ++ " " ++ of_.

(** The command [compactFile] runs. *)
Definition compactInvocation (fn : string) : Invocation :=
  {| prog := compactexe; argv := ["/c"; fn] |}.

Definition emptyInfo : dinfo := {| name := ""; state := ""; version := "" |}.

(** The world after a command was run: the command is recorded and the
    files are what the command left. *)
Definition afterRun (w : World) (c : Invocation) (fs : Files) : World :=
  {| spawned := spawned w ++ [c]; logged := logged w; files := fs; fsops := fsops w |}.

Definition afterLog (w : World) (entries : list LogEntry) : World :=
  {| spawned := spawned w; logged := logged w ++ entries; files := files w;
     fsops := fsops w |}.

(** ** Further views

    What the statements on the rest of the program speak of. *)

(** A rune with its bytes, as [utf8.range] yields them: if the rune is no
    white space, its bytes hold no space. *)
Definition spaceFree (chunk : Z * string) : Prop :=
  stdunicode.IsSpace (fst chunk) = false -> strings.Cut (snd chunk) " " = None.

(** Every byte is below [utf8.RuneSelf]. *)
Fixpoint isASCII (s : string) : bool :=
  match s with
  | "" => true
  | String c s' => (byte_val c <? utf8.RuneSelf) && isASCII s'
  end.

(** The lower case of an ASCII letter; other bytes as they are. *)
Definition lowerByte (c : ascii) : ascii :=
  if (0x41 <=? byte_val c) && (byte_val c <=? 0x5A) then byte_of (byte_val c + 0x20)
  else c.

Fixpoint lowerASCII (s : string) : string :=
  match s with
  | "" => ""
  | String c s' => String (lowerByte c) (lowerASCII s')
  end.

(** The error with which the run of a command ends, if it fails. *)
Definition outcomeError (o : ProcOutcome) : option error :=
  match o with
  | PipeFailed e => Some e
  | StartFailed e => Some e
  | ReadFailed e => Some e
  | Exited _ status => status
  end.

(** The bytes read from its standard output, as [wslCmd] returns them
    beside an error. *)
Definition outcomeOutput (o : ProcOutcome) : string :=
  match o with
  | Exited stdout _ => stdout
  | _ => ""
  end.

(** The path [main] exports to: lines 232-235. *)
Definition exportPath (env : Env) (cfg : Flags) : string :=
  if String.eqb (outfile cfg) "" then outputName env (outfmt cfg) (distro cfg)
  else outfile cfg.

(** The error [compactFile] returns, by the outcome of the command. *)
Definition compactError (o : ProcOutcome) : option error :=
  match o with
  | Exited result None =>
    if strings.Contains result compactedPhrase then None
    else Some ("compact failed: " ++ result)
  | _ => outcomeError o
  end.

(** The commands of a run of [distroCheck] for [target], after the commands
    [history] and on the files [fs], and the files they leave: nothing; or
    the listing command alone; or the listing command, answered with a
    listing in which the first record that matches the target is that of
    a line [d] (after the header) and is not [Stopped], then the terminate
    command for the name of that line, then the commands of a run that
    starts from there. *)
Inductive checkTrace (env : Env) (target : string)
  : list Invocation -> Files -> list Invocation -> Files -> Prop :=
| trace_none (history : list Invocation) (fs : Files) :
    checkTrace env target history fs [] fs
| trace_listing (history : list Invocation) (fs : Files)
    (o : ProcOutcome) (fs1 : Files) :
    host env (history ++ [wslInvocation wslList]) fs = (o, fs1) ->
    checkTrace env target history fs [wslInvocation wslList] fs1
| trace_terminate (history : list Invocation) (fs : Files)
    (raw : string) (fs1 : Files) (d : string) (o : ProcOutcome) (fs2 : Files)
    (rest : list Invocation) (fs3 : Files) :
    host env (history ++ [wslInvocation wslList]) fs = (Exited raw None, fs1) ->
    In d (tl (strings.Split (fst (decodeOutput raw)) CRLF)) ->
    find (nameMatches env target) (registry (fst (decodeOutput raw))) = Some (lineInfo d) ->
    nameMatches env target (lineInfo d) = true ->
    state (lineInfo d) <> "Stopped" ->
    host env
      (history ++ [wslInvocation wslList;
                   wslInvocation ("--terminate " ++ name (lineInfo d))]) fs1
    = (o, fs2) ->
    checkTrace env target
      (history ++ [wslInvocation wslList;
                   wslInvocation ("--terminate " ++ name (lineInfo d))]) fs2 rest fs3 ->
    checkTrace env target history fs
      (wslInvocation wslList
         :: wslInvocation ("--terminate " ++ name (lineInfo d)) :: rest) fs3.

(** What a run of [distroCheck] may have done to the world. *)
Definition checkStep (env : Env) (cfg : Flags) (target : string) (w w' : World) : Prop :=
  fsops w' = fsops w
  /\ (term cfg = false -> logged w' = logged w)
  /\ exists cmds,
       spawned w' = (spawned w ++ cmds)%list
       /\ checkTrace env target (spawned w) (files w) cmds (files w').

(** The flags with [-keep] set to [b]. *)
Definition withKeep (b : bool) (cfg : Flags) : Flags :=
  {| distro := distro cfg; outfile := outfile cfg; outfmt := outfmt cfg;
     outzip := outzip cfg; term := term cfg; compact := compact cfg; keep := b |}.

(** ** Scenarios: concrete environments for the examples *)

(** ASCII text as [wsl.exe] writes it: UTF-16, little-endian. *)
Fixpoint wide (s : string) : string :=
  match s with
  | "" => ""
  | String c s' => String c (String (byte_of 0) (wide s'))
  end.

Definition bytes (l : list Z) : string :=
  fold_right (fun z s => String (byte_of z) s) "" l.

(** A host that answers the [n]-th command with the [n]-th entry of the
    script, whatever the command is. *)
Definition scripted (script : list (ProcOutcome * (Files -> Files)))
  : list Invocation -> Files -> ProcOutcome * Files :=
  fun history fs =>
    match nth_error script (List.length history - 1) with
    | Some (o, effect) => (o, effect fs)
    | None => (StartFailed "exec: no such command", fs)
    end.

Definition keepFiles : Files -> Files := fun fs => fs.

(** An environment without failures of the file operations.  The archive
    encoding is a stand-in, and no rune beyond ASCII has a case variant:
    the scenarios use ASCII names only. *)
Definition quiet (script : list (ProcOutcome * (Files -> Files))) : Env :=
  {| host := scripted script;
     createFails := fun _ => None;
     entryFails := fun _ => None;
     openFails := fun _ => None;
     readFails := fun _ => None;
     zipCloseFails := fun _ => None;
     closeFails := fun _ => None;
     removeFails := fun _ => None;
     zipArchive := fun entries =>
       fold_right (fun e out => "[" ++ fst e ++ "]" ++ snd e ++ out) "" entries;
     now := "202611010000";
     foldsTo := fun _ _ => false |}.

(** The same, with the read of [path] failing after [n] bytes. *)
Definition readFailing (path : string) (n : nat)
  (script : list (ProcOutcome * (Files -> Files))) : Env :=
  {| host := scripted script;
     createFails := fun _ => None;
     entryFails := fun _ => None;
     openFails := fun _ => None;
     readFails := fun p => if String.eqb p path then Some n else None;
     zipCloseFails := fun _ => None;
     closeFails := fun _ => None;
     removeFails := fun _ => None;
     zipArchive := zipArchive (quiet script);
     now := "202611010000";
     foldsTo := fun _ _ => false |}.

Definition header : string := "  NAME          STATE           VERSION".

(** The output of [wsl -l -v] for the given rows. *)
Definition listing (rows : list string) : string :=
  wide (strings.Join (header :: rows) CRLF ++ CRLF).

Definition defaults : Flags :=
  {| distro := "kali-linux"; outfile := ""; outfmt := "vhdx"; outzip := false;
     term := false; compact := false; keep := false |}.

Definition emptyWorld : World :=
  {| spawned := []; logged := []; files := fun _ => None; fsops := [] |}.

Definition rowUbuntu : string := "* Ubuntu        Running         2".
Definition rowKaliStopped : string := "  kali-linux    Stopped         2".
Definition rowKaliRunning : string := "  kali-linux    Running         2".

Definition succeeded (out : string) : ProcOutcome * (Files -> Files) :=
  (Exited out None, keepFiles).

Definition failed (out : string) (e : error) : ProcOutcome * (Files -> Files) :=
  (Exited out (Some e), keepFiles).

(** The distribution to back up is running. *)
Definition busyHost : Env := quiet [succeeded (listing [rowUbuntu; rowKaliRunning])].

(** It is running, and stopped once the terminate command has run. *)
Definition stoppingHost : Env :=
  quiet [succeeded (listing [rowUbuntu; rowKaliRunning]);
         succeeded "";
         succeeded (listing [rowUbuntu; rowKaliStopped])].

Definition forceStop : Flags :=
  {| distro := "Kali-Linux"; outfile := ""; outfmt := "vhdx"; outzip := false;
     term := true; compact := false; keep := false |}.

Definition bothCompressions : Flags :=
  {| distro := "kali-linux"; outfile := ""; outfmt := "tar"; outzip := true;
     term := false; compact := true; keep := false |}.

(** The export fails with the disk full. *)
Definition exportFailing : Env :=
  quiet [failed (wide "There is not enough space on the disk.") "exit status 1"].

(** [compact] reports the file compressed. *)
Definition compactDone : string :=
  " Compressing files in C:\backup" ++ nl
  ++ "1 files within 1 directories were compressed." ++ nl.

Definition compacting : Env := quiet [succeeded compactDone].

(** [compact] reports the file compressed and exits with status 1. *)
Definition compactingExit1 : Env := quiet [failed compactDone "exit status 1"].

(** [compact] cannot reach the file and exits with status 1. *)
Definition compactDenied : Env := quiet [failed "Access is denied." "exit status 1"].

(** The distribution is stopped, the export writes eight bytes, and the read
    of the exported file fails after three of them. *)
Definition exported : string := "VHDXDATA".

Definition zipFlags : Flags :=
  {| distro := "kali-linux"; outfile := "backup.vhdx"; outfmt := "vhdx";
     outzip := true; term := false; compact := false; keep := false |}.

Definition exportScript : list (ProcOutcome * (Files -> Files)) :=
  [succeeded (listing [rowUbuntu; rowKaliStopped]);
   (Exited "" None, fun fs => writeFile fs "backup.vhdx" (Some exported))].

Definition readErrorHost : Env := readFailing "backup.vhdx" 3 exportScript.



(** *** Further scenarios *)

(** A host on which every command exits with status zero, prints [out] and
    leaves the files as they are. *)
Definition answering (out : string) : Env :=
  {| host := fun _ fs => (Exited out None, fs);
     createFails := fun _ => None;
     entryFails := fun _ => None;
     openFails := fun _ => None;
     readFails := fun _ => None;
     zipCloseFails := fun _ => None;
     closeFails := fun _ => None;
     removeFails := fun _ => None;
     zipArchive := zipArchive (quiet []);
     now := "202611010000";
     foldsTo := fun _ _ => false |}.

(** The terminate command has no effect: the distribution stays running. *)
Definition stubbornHost : Env := answering (listing [rowUbuntu; rowKaliRunning]).

(** No command can be started. *)
Definition noCommands : Env := quiet [].

(** The distribution is running and the terminate command fails. *)
Definition terminateFailing : Env :=
  quiet [succeeded (listing [rowUbuntu; rowKaliRunning]);
         failed "" "exit status 1"].

(** [wsl -l -v] prints one line and no table. *)
Definition noTable : Env :=
  quiet [succeeded (wide "Windows Subsystem for Linux has no installed distributions.")].

Definition zipFormat : Flags :=
  {| distro := "kali-linux"; outfile := ""; outfmt := "zip"; outzip := false;
     term := false; compact := false; keep := false |}.

Definition debian : Flags :=
  {| distro := "debian"; outfile := ""; outfmt := "vhdx"; outzip := false;
     term := false; compact := false; keep := false |}.

(** The distribution is stopped and the export fails with the disk full. *)
Definition diskFull : Env :=
  quiet [succeeded (listing [rowUbuntu; rowKaliStopped]);
         failed (wide "There is not enough space on the disk.") "exit status 1"].

Definition plainFlags : Flags :=
  {| distro := "kali-linux"; outfile := "backup.vhdx"; outfmt := "vhdx";
     outzip := false; term := false; compact := false; keep := false |}.

Definition compactFlags : Flags :=
  {| distro := "kali-linux"; outfile := "backup.vhdx"; outfmt := "vhdx";
     outzip := false; term := false; compact := true; keep := false |}.

(** The distribution is stopped and the export writes the file. *)
Definition backupHost : Env := quiet exportScript.

(** The same, and [compact] then reports the file compressed. *)
Definition compactHost : Env := quiet (exportScript ++ [succeeded compactDone])%list.

(** The world once the export has been written. *)
Definition withExport : World :=
  {| spawned := []; logged := [];
     files := writeFile (fun _ => None) "backup.vhdx" (Some exported); fsops := [] |}.

Definition kaliStopped : dinfo :=
  {| name := "kali-linux"; state := "Stopped"; version := "2" |}.

Definition kaliRunning : dinfo :=
  {| name := "kali-linux"; state := "Running"; version := "2" |}.

(** A line of two fields. *)
Definition rowTwoFields : string := "kali-linux Stopped".

(** A line of four fields as read, of three once the marker is removed. *)
Definition rowMarkedInside : string := "kali* -linux Stopped 2".

(** The listing holds that line alone. *)
Definition markedHost : Env := quiet [succeeded (listing [rowMarkedInside])].

(** * Properties *)

(** ** The library functions *)

Lemma trimPrefix_app (p s : string) : strings.trimPrefix p (p ++ s) = Some s.
Proof.
  induction p as [|c p IH]; simpl; [reflexivity|].
  rewrite Ascii.eqb_refl. exact IH.
Qed.

Lemma trimPrefix_Some (p s after : string) :
  strings.trimPrefix p s = Some after -> s = p ++ after.
Proof.
  revert s. induction p as [|c p IH]; intros s H; simpl in *.
  - now inversion H.
  - destruct s as [|c' s']; [discriminate|].
    destruct (Ascii.eqb c c') eqn:E; [|discriminate].
    apply Ascii.eqb_eq in E. subst c'. f_equal. now apply IH.
Qed.

Lemma Cut_Some (sep s before after : string) :
  strings.Cut s sep = Some (before, after) -> s = before ++ sep ++ after.
Proof.
  revert before. induction s as [|c s IH]; intros before H.
  - simpl in H. destruct (strings.trimPrefix sep "") eqn:E; [|discriminate].
    inversion H; subst. now apply trimPrefix_Some in E.
  - cbn [strings.Cut] in H.
    destruct (strings.trimPrefix sep (String c s)) eqn:E.
    + inversion H; subst. now apply trimPrefix_Some in E.
    + destruct (strings.Cut s sep) as [[b a]|] eqn:C; [|discriminate].
      inversion H; subst. simpl. f_equal. now apply IH.
Qed.

Lemma length_app (s t : string) :
  String.length (s ++ t) = (String.length s + String.length t)%nat.
Proof. induction s as [|c s IH]; simpl; [reflexivity | now rewrite IH]. Qed.

Lemma Cut_length (sep s before after : string) :
  strings.Cut s sep = Some (before, after) ->
  String.length s = (String.length before + String.length sep + String.length after)%nat.
Proof.
  intros H. apply Cut_Some in H. subst s.
  rewrite !length_app. lia.
Qed.

Lemma Cut_empty (sep : string) : sep <> "" -> strings.Cut "" sep = None.
Proof. destruct sep; [congruence | reflexivity]. Qed.

Lemma splitLoop_rounds (sep : string) (n m : nat) (s : string) :
  sep <> "" -> (String.length s <= n)%nat -> (String.length s <= m)%nat ->
  strings.splitLoop n s sep = strings.splitLoop m s sep.
Proof.
  intros Hsep. revert m s.
  induction n as [|n IH]; intros m s Hn Hm.
  - destruct s; [|simpl in Hn; lia].
    destruct m; cbn [strings.splitLoop]; [reflexivity|]. now rewrite Cut_empty.
  - destruct m as [|m].
    + destruct s; [|simpl in Hm; lia]. cbn [strings.splitLoop]. now rewrite Cut_empty.
    + cbn [strings.splitLoop]. destruct (strings.Cut s sep) as [[b a]|] eqn:C; [|reflexivity].
      f_equal. pose proof (Cut_length _ _ _ _ C) as L.
      assert (0 < String.length sep)%nat by (destruct sep; [congruence|simpl; lia]).
      apply IH; lia.
Qed.

Lemma Cut_before_sep2 (a b : ascii) (x rest : string) :
  a <> b ->
  strings.Cut x (String a (String b "")) = None ->
  strings.Cut (x ++ String a (String b rest)) (String a (String b "")) = Some (x, rest).
Proof.
  intros Hab. induction x as [|c x IH]; intros H.
  - simpl. now rewrite !Ascii.eqb_refl.
  - cbn [strings.Cut] in H.
    destruct (strings.trimPrefix (String a (String b "")) (String c x)) eqn:T; [discriminate|].
    destruct (strings.Cut x (String a (String b ""))) as [[? ?]|] eqn:C; [discriminate|].
    specialize (IH eq_refl).
    change (String c x ++ String a (String b rest)) with (String c (x ++ String a (String b rest))).
    cbn [strings.Cut]. rewrite IH.
    assert (strings.trimPrefix (String a (String b "")) (String c (x ++ String a (String b rest))) = None) as ->.
    { simpl in T |- *. destruct (Ascii.eqb a c); [|reflexivity].
      destruct x as [|c' x']; simpl in *.
      - destruct (Ascii.eqb b a) eqn:E; [|reflexivity].
        apply Ascii.eqb_eq in E. congruence.
      - destruct (Ascii.eqb b c'); [discriminate|reflexivity]. }
    reflexivity.
Qed.

Lemma Contains_Cut (s substr : string) :
  strings.Contains s substr = false <-> strings.Cut s substr = None.
Proof.
  unfold strings.Contains, strings.Index.
  destruct (strings.Cut s substr) as [[b a]|]; split; intros H;
    try discriminate; try reflexivity.
  apply Z.leb_gt in H. lia.
Qed.

Lemma Split_whole (s sep : string) :
  strings.Cut s sep = None -> strings.Split s sep = [s].
Proof.
  intros H. unfold strings.Split.
  destruct (String.length s); cbn [strings.splitLoop]; [reflexivity|].
  now rewrite H.
Qed.

Lemma CR_LF : CR <> LF.
Proof. discriminate. Qed.

Lemma Split_step (x rest : string) :
  strings.Cut x CRLF = None ->
  strings.Split (x ++ CRLF ++ rest) CRLF = x :: strings.Split rest CRLF.
Proof.
  intros H. unfold strings.Split.
  pose proof (Cut_before_sep2 CR LF x rest CR_LF H) as C.
  change (String CR (String LF rest)) with (CRLF ++ rest) in C.
  change (String CR (String LF "")) with CRLF in C.
  pose proof (Cut_length _ _ _ _ C) as L.
  destruct (String.length (x ++ CRLF ++ rest)) as [|n] eqn:E.
  - simpl in L. lia.
  - cbn [strings.splitLoop]. rewrite C. f_equal.
    apply splitLoop_rounds; [discriminate | simpl in L; lia | lia].
Qed.

Lemma Split_Join (first : string) (rest : list string) :
  Forall (fun l => strings.Contains l CRLF = false) (first :: rest) ->
  strings.Split (strings.Join (first :: rest) CRLF) CRLF = first :: rest.
Proof.
  revert first. induction rest as [|l ls IH]; intros first H.
  - inversion H as [|? ? H1 _]; subst. apply Split_whole. now apply Contains_Cut.
  - inversion H as [|? ? H1 H2]; subst.
    change (strings.Join (first :: l :: ls) CRLF)
      with (first ++ CRLF ++ strings.Join (l :: ls) CRLF).
    rewrite Split_step by now apply Contains_Cut.
    f_equal. now apply IH.
Qed.

Lemma replaceLoop_rounds (old new : string) (n m : nat) (s : string) :
  old <> "" -> (String.length s <= n)%nat -> (String.length s <= m)%nat ->
  strings.replaceLoop n s old new = strings.replaceLoop m s old new.
Proof.
  intros Hold. revert m s.
  induction n as [|n IH]; intros m s Hn Hm.
  - destruct s; [|simpl in Hn; lia].
    destruct m; cbn [strings.replaceLoop]; [reflexivity|]. now rewrite Cut_empty.
  - destruct m as [|m].
    + destruct s; [|simpl in Hm; lia]. cbn [strings.replaceLoop]. now rewrite Cut_empty.
    + cbn [strings.replaceLoop].
      destruct (strings.Cut s old) as [[b a]|] eqn:C; [|reflexivity].
      do 2 f_equal. pose proof (Cut_length _ _ _ _ C) as L.
      assert (0 < String.length old)%nat by (destruct old; [congruence|simpl; lia]).
      apply IH; lia.
Qed.

Lemma replaceLoop_S (n : nat) (s old new : string) :
  strings.replaceLoop (S n) s old new =
    match strings.Cut s old with
    | None => s
    | Some (before, after) => before ++ new ++ strings.replaceLoop n after old new
    end.
Proof. reflexivity. Qed.

Lemma Replace_marker (rest : string) :
  strings.Replace (marker ++ rest) marker "" (-1) = strings.Replace rest marker "" (-1).
Proof.
  unfold strings.Replace. cbn [String.eqb marker Ascii.eqb Bool.eqb orb Z.eqb Z.ltb Z.compare].
  change (String.length (marker ++ rest)) with (S (S (String.length rest))).
  rewrite replaceLoop_S.
  assert (strings.Cut (marker ++ rest) marker = Some ("", rest)) as ->.
  { destruct rest; reflexivity. }
  cbn [append]. apply replaceLoop_rounds; [discriminate | lia | lia].
Qed.

Lemma Replace_absent (s old new : string) (n : Z) :
  strings.Cut s old = None -> strings.Replace s old new n = s.
Proof.
  intros H. unfold strings.Replace.
  destruct (String.eqb old new || (n =? 0)); [reflexivity|].
  destruct (if n <? 0 then String.length s else Z.to_nat n);
    cbn [strings.replaceLoop]; [reflexivity | now rewrite H].
Qed.

Lemma fieldsLoop_nonempty (f : Z -> bool) (span : string) (rs : list (Z * string)) :
  Forall (fun x => x <> "") (strings.fieldsLoop f span rs).
Proof.
  revert span. induction rs as [|[r b] rs IH]; intros span; cbn [strings.fieldsLoop].
  - destruct (String.eqb span "") eqn:E; constructor; [|constructor].
    intros ->. discriminate.
  - destruct (f r); [|apply IH].
    destruct (String.eqb span "") eqn:E; [apply IH|].
    constructor; [|apply IH]. intros ->. discriminate.
Qed.

Lemma Fields_nonempty (s : string) : Forall (fun x => x <> "") (strings.Fields s).
Proof. apply fieldsLoop_nonempty. Qed.

Lemma range_cons (c : ascii) (s : string) : utf8.range (String c s) <> [].
Proof.
  unfold utf8.range. cbn [utf8.rangeFrom].
  destruct (utf8.DecodeRuneInString (String c s)). discriminate.
Qed.

Lemma EqualFold_empty_l (fold : Z -> Z -> bool) (t : string) :
  strings.EqualFold fold "" t = true <-> t = "".
Proof.
  unfold strings.EqualFold. split.
  - destruct t as [|c t]; [reflexivity|]. intros H.
    pose proof (range_cons c t) as N.
    destruct (utf8.range (String c t)); [congruence | discriminate].
  - intros ->. reflexivity.
Qed.

Lemma EqualFold_empty_r (fold : Z -> Z -> bool) (s : string) :
  strings.EqualFold fold s "" = true <-> s = "".
Proof.
  unfold strings.EqualFold. split.
  - destruct s as [|c s]; [reflexivity|]. intros H.
    pose proof (range_cons c s) as N.
    destruct (utf8.range (String c s)) as [|[? ?] ?]; [congruence | discriminate].
  - intros ->. reflexivity.
Qed.

(** ** The records of the listing *)

Lemma lineInfo_fields (d : string) :
  lineInfo d =
    match strings.Fields (strings.Replace d marker "" (-1)) with
    | [f0; f1; f2] => {| name := f0; state := f1; version := f2 |}
    | _ => emptyInfo
    end.
Proof. reflexivity. Qed.

Lemma lineInfo_malformed (d : string) : threeFields d = false -> lineInfo d = emptyInfo.
Proof.
  unfold threeFields. rewrite lineInfo_fields. intros H.
  destruct (strings.Fields _) as [|f0 [|f1 [|f2 [|f3 l]]]]; try reflexivity.
  discriminate.
Qed.

Lemma lineInfo_wellformed (d : string) : threeFields d = true -> name (lineInfo d) <> "".
Proof.
  unfold threeFields. rewrite lineInfo_fields. intros H.
  pose proof (Fields_nonempty (strings.Replace d marker "" (-1))) as N.
  destruct (strings.Fields _) as [|f0 [|f1 [|f2 [|f3 l]]]]; try discriminate.
  inversion N; subst. assumption.
Qed.

(** ** The commands and the availability check *)

Lemma UTF16_IgnoreBOM_total (e : unicode.Endianness) (src : string) :
  snd (unicode.UTF16 e unicode.IgnoreBOM src) = None.
Proof.
  unfold unicode.UTF16. cbn [unicode.requireBOM unicode.acceptBOM].
  rewrite !andb_false_r.
  destruct (String.length src =? 0)%nat; reflexivity.
Qed.

Lemma decodeOutput_total (src : string) : snd (decodeOutput src) = None.
Proof.
  unfold decodeOutput, unicode.BOMOverride.
  destruct (unicode.startsWith 0xFF 0xFE src);
    [|destruct (unicode.startsWith 0xFE 0xFF src);
      [|destruct (unicode.startsWithUTF8BOM src)]];
    match goal with |- context [(?n <? ?m)%nat] => destruct (n <? m)%nat end;
    try reflexivity; apply UTF16_IgnoreBOM_total.
Qed.

Lemma decodeOutput_pair (src : string) :
  decodeOutput src = (fst (decodeOutput src), None).
Proof.
  pose proof (decodeOutput_total src) as H.
  destruct (decodeOutput src) as [text err]. simpl in *. now subst.
Qed.

Lemma wslCmd_exited (env : Env) (flags : string) (w : World)
  (result : string) (status : option error) (fs : Files) :
  host env (spawned w ++ [wslInvocation flags]) (files w) = (Exited result status, fs) ->
  wslCmd env flags w =
    (match status with
     | Some e => (result, Some e)
     | None => (fst (decodeOutput result), None)
     end, afterRun w (wslInvocation flags) fs).
Proof.
  intros H. unfold wslCmd, bind, run.
  fold (wslInvocation flags). rewrite H.
  destruct status; [reflexivity|].
  unfold ret. fold decodeOutput. now rewrite <- decodeOutput_pair.
Qed.

Lemma rangeDistros_find (env : Env) (cfg : Flags) (again : M Checked)
  (target : string) (i : nat) (ds : list string) :
  rangeDistros env cfg again target (S i) ds =
    match find (nameMatches env target) (map lineInfo ds) with
    | Some nfo => matched env cfg again nfo
    | None => ret (Some (false, None))
    end.
Proof.
  revert i. induction ds as [|d ds IH]; intros i; [reflexivity|].
  cbn [rangeDistros map find Nat.eqb]. unfold nameMatches at 1.
  destruct (strings.EqualFold _ _ _); [reflexivity | apply IH].
Qed.

Lemma rangeDistros_header (env : Env) (cfg : Flags) (again : M Checked)
  (target : string) (ds : list string) :
  rangeDistros env cfg again target 0 ds =
    match find (nameMatches env target) (map lineInfo (tl ds)) with
    | Some nfo => matched env cfg again nfo
    | None => ret (Some (false, None))
    end.
Proof.
  destruct ds as [|d ds]; [reflexivity|].
  cbn [rangeDistros Nat.eqb tl]. apply rangeDistros_find.
Qed.

Lemma distroCheck_listed (env : Env) (cfg : Flags) (fuel : nat)
  (target : string) (w : World) (raw : string) (fs : Files) :
  host env (spawned w ++ [wslInvocation wslList]) (files w) = (Exited raw None, fs) ->
  distroCheck env cfg (S fuel) target w =
    match find (nameMatches env target) (registry (fst (decodeOutput raw))) with
    | Some nfo =>
      matched env cfg (distroCheck env cfg fuel target) nfo
        (afterRun w (wslInvocation wslList) fs)
    | None => (Some (false, None), afterRun w (wslInvocation wslList) fs)
    end.
Proof.
  intros H. cbn [distroCheck]. unfold bind at 1.
  rewrite (wslCmd_exited _ _ _ _ _ _ H).
  rewrite rangeDistros_header. fold (registry (fst (decodeOutput raw))).
  destruct (find _ _); reflexivity.
Qed.

(** A text contains what it was built around. *)
Lemma Cut_trimmed (s sep after : string) :
  strings.trimPrefix sep s = Some after -> strings.Cut s sep = Some ("", after).
Proof.
  intros H. destruct s; cbn [strings.Cut]; now rewrite H.
Qed.

Lemma Cut_infix (p n s : string) : strings.Cut (p ++ n ++ s) n <> None.
Proof.
  induction p as [|c p IH].
  - cbn [append]. now rewrite (Cut_trimmed _ _ _ (trimPrefix_app n s)).
  - change (String c p ++ n ++ s) with (String c (p ++ n ++ s)).
    cbn [strings.Cut].
    destruct (strings.trimPrefix n (String c (p ++ n ++ s))); [discriminate|].
    destruct (strings.Cut (p ++ n ++ s) n) as [[b a]|]; [discriminate | exact IH].
Qed.

Lemma Contains_infix (p n s : string) : strings.Contains (p ++ n ++ s) n = true.
Proof.
  unfold strings.Contains, strings.Index.
  pose proof (Cut_infix p n s) as H.
  destruct (strings.Cut (p ++ n ++ s) n) as [[b a]|]; [|contradiction].
  apply Z.leb_le. lia.
Qed.

(** C1.  Without force-stop ([term cfg = false]), after a listing that was
    read, [distroCheck] decides on the first record whose name equals the
    target case-insensitively: [(true, nil)] when its state is literally
    [Stopped], [(false, busy error)] for any other state, and [(false, nil)]
    when no record matches.  The busy error is the text of line 107 with the
    name of the record in it, so it names the guest: it contains the name as
    listed.  In all three cases the only command run is the listing: no
    terminate command is issued. *)
Theorem distroCheck_without_force_stop (env : Env) (cfg : Flags) (fuel : nat)
  (target : string) (w : World) (raw : string) (fs : Files) :
  term cfg = false ->
  host env (spawned w ++ [wslInvocation wslList]) (files w) = (Exited raw None, fs) ->
  distroCheck env cfg (S fuel) target w =
    (Some
       match find (nameMatches env target) (registry (fst (decodeOutput raw))) with
       | Some nfo =>
         if String.eqb (state nfo) "Stopped" then (true, None)
         else (false,
               Some ("found distribution " ++ name nfo
                     ++ " but it is running and -t flag not specified so it will not be terminated"))
       | None => (false, None)
       end,
     afterRun w (wslInvocation wslList) fs)
  /\ (forall nfo,
        find (nameMatches env target) (registry (fst (decodeOutput raw))) = Some nfo ->
        state nfo <> "Stopped" ->
        exists e,
          fst (distroCheck env cfg (S fuel) target w) = Some (false, Some e)
          /\ strings.Contains e (name nfo) = true).
Proof.
  intros Hterm Hlist.
  assert (E : distroCheck env cfg (S fuel) target w =
    (Some
       match find (nameMatches env target) (registry (fst (decodeOutput raw))) with
       | Some nfo =>
         if String.eqb (state nfo) "Stopped" then (true, None)
         else (false,
               Some ("found distribution " ++ name nfo
                     ++ " but it is running and -t flag not specified so it will not be terminated"))
       | None => (false, None)
       end,
     afterRun w (wslInvocation wslList) fs)).
  { rewrite (distroCheck_listed _ _ _ _ _ _ _ Hlist).
    destruct (find _ _) as [nfo|]; [|reflexivity].
    unfold matched. rewrite Hterm.
    destruct (String.eqb (state nfo) "Stopped"); reflexivity. }
  split; [exact E|].
  intros nfo F Hrun. rewrite E, F. cbn [fst].
  destruct (String.eqb (state nfo) "Stopped") eqn:S;
    [apply String.eqb_eq in S; contradiction|].
  eexists. split; [reflexivity | apply Contains_infix].
Qed.

(** C2.  With force-stop, when the first listing shows the target in a
    state other than [Stopped], the terminate command succeeds and the
    second listing shows it [Stopped]: [distroCheck] runs the listing, one
    terminate command for that guest and the listing once more, in this
    order, and returns [(true, nil)]; what it returns is what its recursive
    call on the same target returns after the terminate command. *)
Theorem distroCheck_force_stop (env : Env) (cfg : Flags) (fuel : nat)
  (target : string) (w : World) (raw1 out raw2 : string) (fs1 fs2 fs3 : Files)
  (nfo nfo2 : dinfo) :
  let L := wslInvocation wslList in
  let T := wslInvocation ("--terminate " ++ name nfo) in
  let w2 :=
    {| spawned := spawned w ++ [L; T];
       logged := logged w ++ [Printf terminating [name nfo]];
       files := fs2; fsops := fsops w |} in
  term cfg = true ->
  host env (spawned w ++ [L]) (files w) = (Exited raw1 None, fs1) ->
  find (nameMatches env target) (registry (fst (decodeOutput raw1))) = Some nfo ->
  state nfo <> "Stopped" ->
  host env (spawned w ++ [L; T]) fs1 = (Exited out None, fs2) ->
  host env (spawned w ++ [L; T; L]) fs2 = (Exited raw2 None, fs3) ->
  find (nameMatches env target) (registry (fst (decodeOutput raw2))) = Some nfo2 ->
  state nfo2 = "Stopped" ->
  distroCheck env cfg (S (S fuel)) target w = distroCheck env cfg (S fuel) target w2
  /\ distroCheck env cfg (S (S fuel)) target w =
     (Some (true, None),
      {| spawned := spawned w ++ [L; T; L];
         logged := logged w ++ [Printf terminating [name nfo]];
         files := fs3; fsops := fsops w |}).
Proof.
  intros L T w2 Hterm H1 F1 Hrun H2 H3 F2 Hstop.
  assert (distroCheck env cfg (S (S fuel)) target w
          = distroCheck env cfg (S fuel) target w2) as Hrec.
  { rewrite (distroCheck_listed _ _ _ _ _ _ _ H1). rewrite F1.
    unfold matched. rewrite Hterm.
    destruct (String.eqb (state nfo) "Stopped") eqn:E;
      [apply String.eqb_eq in E; contradiction|].
    unfold bind at 1. unfold logTo. unfold bind at 1.
    cbn [afterRun spawned logged files fsops].
    erewrite wslCmd_exited.
    2:{ cbn [spawned files]. fold L T. rewrite <- app_assoc. exact H2. }
    unfold afterRun, w2. cbn [spawned logged files fsops].
    rewrite <- app_assoc. reflexivity. }
  split; [exact Hrec|]. rewrite Hrec.
  erewrite distroCheck_listed.
  2:{ cbn [w2 spawned files]. fold L. rewrite <- app_assoc. exact H3. }
  rewrite F2. unfold matched. rewrite Hstop. cbn [String.eqb].
  unfold afterRun, w2. cbn [spawned logged files fsops]. fold L.
  rewrite <- app_assoc. reflexivity.
Qed.

(** C5.  With both [-z] and [-c] selected [main] ends in [log.Fatal] and
    leaves the world as it found it: no command was run (no listing, no
    terminate, no export) and no file operation was made.  The message is
    that of the conflict, unless the output format was refused first. *)
Theorem main_rejects_both_compressions (env : Env) (cfg : Flags) (fuel : nat)
  (w : World) :
  outzip cfg = true -> compact cfg = true ->
  main env cfg fuel w =
    (Some (Fatal match formatRefused cfg with
                 | Some entry => entry
                 | None => Printf conflictMessage []
                 end), w).
Proof.
  intros Hz Hc. unfold main.
  destruct (formatRefused cfg) as [entry|]; [reflexivity|].
  now rewrite Hz, Hc.
Qed.

(** C9.  When the export command exits with a non-zero status, [wslCmd]
    returns the bytes read from its standard output as they are, without
    decoding them, together with the error, and [wslExport] logs these
    bytes in its [Failed] entry. *)
Theorem wslExport_failure_logs_raw_output (env : Env) (distro format of_ : string)
  (w : World) (raw : string) (e : error) (fs : Files) :
  let c := wslInvocation (exportCommand distro format of_) in
  host env (spawned w ++ [c]) (files w) = (Exited raw (Some e), fs) ->
  wslCmd env (exportCommand distro format of_) w = ((raw, Some e), afterRun w c fs)
  /\ wslExport env distro format of_ w =
     (Some e,
      afterLog (afterRun w c fs)
        [Printf exporting [distro; of_; format]; Printf ("Failed: %s" ++ nl) [raw]]).
Proof.
  intros c H. split.
  - now rewrite (wslCmd_exited _ _ _ _ _ _ H).
  - unfold wslExport. fold (exportCommand distro format of_). fold exporting.
    unfold bind at 1. unfold logTo at 1. unfold bind at 1.
    erewrite wslCmd_exited by exact H.
    unfold bind, logTo, ret, afterLog, afterRun. cbn [spawned logged files fsops].
    rewrite <- app_assoc. reflexivity.
Qed.

(** C6, amended.  When [compact] ran and exited with status zero,
    [compactFile] succeeds if its output contains the phrase and otherwise
    fails with an error that carries the output; when it exited with
    another status, [compactFile] returns the error of [Wait], whatever the
    output. *)
Theorem compactFile_exited (env : Env) (fn : string) (w : World)
  (result : string) (status : option error) (fs : Files) :
  host env (spawned w ++ [compactInvocation fn]) (files w) = (Exited result status, fs) ->
  fst (compactFile env fn w) =
    match status with
    | Some e => Some e
    | None =>
      if strings.Contains result compactedPhrase then None
      else Some ("compact failed: " ++ result)
    end.
Proof.
  intros H. unfold compactFile, bind, run. fold (compactInvocation fn). rewrite H.
  destruct status; [reflexivity|].
  destruct (strings.Contains result compactedPhrase); reflexivity.
Qed.

(** ** Malformed lines and the listing as a whole *)

Lemma find_wellformed_empty_target (env : Env) (pre : list string) (rest : list dinfo) :
  Forall (fun l => threeFields l = true) pre ->
  find (nameMatches env "") (map lineInfo pre ++ rest) = find (nameMatches env "") rest.
Proof.
  induction 1 as [|l pre Hl _ IH]; [reflexivity|].
  cbn [map app find]. unfold nameMatches at 1.
  destruct (strings.EqualFold _ _ _) eqn:E; [|exact IH].
  apply EqualFold_empty_r in E. now apply lineInfo_wellformed in Hl.
Qed.

Lemma find_skips_unmatched (env : Env) (target : string) (pre post : list string)
  (d : string) :
  nameMatches env target (lineInfo d) = false ->
  find (nameMatches env target) (map lineInfo (pre ++ d :: post))
  = find (nameMatches env target) (map lineInfo (pre ++ post)).
Proof.
  intros H. induction pre as [|l pre IH].
  - cbn [app map find]. now rewrite H.
  - cbn [app map find]. now rewrite IH.
Qed.

Lemma wellformed_not_empty_target (env : Env) (l : string) :
  threeFields l = true -> nameMatches env "" (lineInfo l) = false.
Proof.
  intros Hl. unfold nameMatches.
  destruct (strings.EqualFold _ _ _) eqn:E; [|reflexivity].
  apply EqualFold_empty_r in E. now apply lineInfo_wellformed in Hl.
Qed.

(** C10, amended.  A line that does not give exactly three fields once
    every instance of the marker has been removed from it yields a record
    with the empty name, which matches a target exactly when the target is
    empty.  For a non-empty target such a line never matches: the loop
    passes over it, and the result is what it would be without the line.
    For the empty target the lines that give three fields do not match, and
    the first line that does not is the one matched; its state not being
    [Stopped], the branch of a running guest is taken: terminate when
    force-stop is on, the busy error otherwise. *)
Theorem malformed_line_matches_only_empty_target (env : Env) (cfg : Flags)
  (again : M Checked) (d : string) :
  threeFields d = false ->
  name (lineInfo d) = ""
  /\ (forall target, nameMatches env target (lineInfo d) = true <-> target = "")
  /\ (forall target i rest, target <> "" ->
        rangeDistros env cfg again target (S i) (d :: rest)
        = rangeDistros env cfg again target (S (S i)) rest)
  /\ (forall i pre post, Forall (fun l => threeFields l = true) pre ->
        rangeDistros env cfg again "" (S i) (pre ++ d :: post)
        = matched env cfg again emptyInfo)
  /\ matched env cfg again emptyInfo =
     (if term cfg then
       logTo (Printf terminating [""]) ;;;
       ' (_, err) <- wslCmd env "--terminate " ;;
       match err with
       | Some e => ret (Some (false, Some e))
       | None => again
       end
     else ret (Some (false, Some "found distribution  but it is running and -t flag not specified so it will not be terminated")))
  /\ (forall target i j pre post, target <> "" ->
        rangeDistros env cfg again target (S i) (pre ++ d :: post)
        = rangeDistros env cfg again target (S j) (pre ++ post))
  /\ (forall pre post, Forall (fun l => threeFields l = true) pre ->
        Forall (fun l => nameMatches env "" (lineInfo l) = false) pre
        /\ nameMatches env "" (lineInfo d) = true
        /\ find (nameMatches env "") (map lineInfo (pre ++ d :: post)) = Some (lineInfo d)).
Proof.
  intros H. pose proof (lineInfo_malformed d H) as Hd.
  assert (Hall : forall target, nameMatches env target (lineInfo d) = true <-> target = "").
  { intros target. unfold nameMatches. rewrite Hd. apply EqualFold_empty_l. }
  split; [now rewrite Hd|]. split; [exact Hall|].
  split.
  { intros target i rest Ht. cbn [rangeDistros Nat.eqb]. rewrite Hd.
    destruct (strings.EqualFold _ _ _) eqn:E; [|reflexivity].
    apply EqualFold_empty_l in E. contradiction. }
  split.
  { intros i pre post Hpre. rewrite rangeDistros_find, map_app.
    rewrite find_wellformed_empty_target by assumption.
    cbn [map find]. rewrite Hd. reflexivity. }
  split; [reflexivity|].
  split.
  { intros target i j pre post Ht. rewrite !rangeDistros_find.
    rewrite find_skips_unmatched; [reflexivity|].
    destruct (nameMatches env target (lineInfo d)) eqn:E; [|reflexivity].
    apply Hall in E. contradiction. }
  intros pre post Hpre. split.
  { eapply Forall_impl; [|exact Hpre]. intros l. apply wellformed_not_empty_target. }
  split; [now apply Hall|].
  rewrite map_app, find_wellformed_empty_target by assumption.
  cbn [map find]. now rewrite (proj2 (Hall "") eq_refl).
Qed.

(** C3, amended.  For a header and [N] lines joined by CR LF, none of them
    containing CR LF, the records are those of the [N] lines, in order.
    Every instance of the marker is removed from a line, wherever it
    stands; the line gives (name, state, version) when exactly three fields
    remain, and the empty record otherwise.  For a line that starts with the
    marker and has no other instance of it, the fields are those of the rest
    of the line. *)
Theorem registry_of_listing (head : string) (rows : list string) :
  Forall (fun l => strings.Contains l CRLF = false) (head :: rows) ->
  registry (strings.Join (head :: rows) CRLF) = map lineInfo rows
  /\ List.length (registry (strings.Join (head :: rows) CRLF)) = List.length rows
  /\ (forall d,
        lineInfo d =
          match strings.Fields (strings.Replace d marker "" (-1)) with
          | [f0; f1; f2] => {| name := f0; state := f1; version := f2 |}
          | _ => emptyInfo
          end)
  /\ (forall rest, strings.Contains rest marker = false ->
        lineInfo (marker ++ rest) =
          match strings.Fields rest with
          | [f0; f1; f2] => {| name := f0; state := f1; version := f2 |}
          | _ => emptyInfo
          end).
Proof.
  intros H. unfold registry. rewrite (Split_Join _ _ H). cbn [tl].
  repeat split.
  - apply length_map.
  - intros rest Hrest. rewrite lineInfo_fields.
    rewrite Replace_marker.
    rewrite Replace_absent by now apply Contains_Cut. reflexivity.
Qed.

(** *** The decoder *)

(** C7, amended.  For input that does not itself start with a byte order
    mark (FF FE, FE FF or EF BB BF), decoding it after a little-endian mark
    and decoding it alone give the same result. *)
Theorem bom_transparent (s : string) :
  unicode.startsWith 0xFF 0xFE s = false ->
  unicode.startsWith 0xFE 0xFF s = false ->
  unicode.startsWithUTF8BOM s = false ->
  decodeOutput (bomLE ++ s) = decodeOutput s.
Proof.
  intros Hle Hbe H8. unfold decodeOutput, unicode.BOMOverride.
  rewrite Hle, Hbe, H8.
  change (unicode.startsWith 0xFF 0xFE (bomLE ++ s)) with true. cbv iota.
  change (unicode.drop 2 (bomLE ++ s)) with s.
  change (unicode.drop 0 s) with s.
  destruct s as [|c s]; [reflexivity|]. reflexivity.
Qed.

Lemma string_app_assoc (s t u : string) : (s ++ t) ++ u = s ++ t ++ u.
Proof. induction s as [|c s IH]; simpl; [reflexivity | now rewrite IH]. Qed.



Lemma UTF16_IgnoreBOM_eq (e : unicode.Endianness) (src : string) :
  unicode.UTF16 e unicode.IgnoreBOM src
  = (unicode.encodeRunes (unicode.decodeLoop e src), None).
Proof.
  unfold unicode.UTF16. cbn [unicode.requireBOM unicode.acceptBOM].
  rewrite !andb_false_r. destruct src; reflexivity.
Qed.

Lemma decodeOutput_cases (src : string) :
  decodeOutput src =
    if unicode.startsWith 0xFF 0xFE src then
      (unicode.encodeRunes (unicode.decodeLoop unicode.LittleEndian (unicode.drop 2 src)), None)
    else if unicode.startsWith 0xFE 0xFF src then
      (unicode.encodeRunes (unicode.decodeLoop unicode.BigEndian (unicode.drop 2 src)), None)
    else if unicode.startsWithUTF8BOM src then (unicode.drop 3 src, None)
    else (unicode.encodeRunes (unicode.decodeLoop unicode.LittleEndian src), None).
Proof.
  unfold decodeOutput, unicode.BOMOverride.
  destruct (unicode.startsWith 0xFF 0xFE src) eqn:Hle.
  { destruct src as [|c0 [|c1 [|c2 rest]]]; try discriminate; try reflexivity.
    change (unicode.drop 2 (String c0 (String c1 (String c2 rest)))) with (String c2 rest).
    change (2 <? String.length (String c0 (String c1 (String c2 rest))))%nat with true.
    cbv iota. apply UTF16_IgnoreBOM_eq. }
  destruct (unicode.startsWith 0xFE 0xFF src) eqn:Hbe.
  { destruct src as [|c0 [|c1 [|c2 rest]]]; try discriminate; try reflexivity.
    change (unicode.drop 2 (String c0 (String c1 (String c2 rest)))) with (String c2 rest).
    change (2 <? String.length (String c0 (String c1 (String c2 rest))))%nat with true.
    cbv iota. apply UTF16_IgnoreBOM_eq. }
  destruct (unicode.startsWithUTF8BOM src) eqn:H8.
  { destruct src as [|c0 [|c1 [|c2 [|c3 rest]]]]; try discriminate; reflexivity. }
  destruct src as [|c0 rest]; [reflexivity|].
  change (0 <? String.length (String c0 rest))%nat with true.
  cbv iota. apply UTF16_IgnoreBOM_eq.
Qed.



(** ** The archive of [zipFile] *)

Lemma eqb_zip_name (fn : string) : String.eqb fn (fn ++ ".zip") = false.
Proof.
  induction fn as [|c fn IH]; [reflexivity|].
  cbn [append String.eqb]. now rewrite Ascii.eqb_refl.
Qed.

(** [zipFile] writes to the archive only: whatever fails, the file it was
    given holds what it held. *)
Lemma zipFile_keeps_original (env : Env) (fn : string) (w : World) :
  files (snd (zipFile env fn w)) fn = files w fn.
Proof.
  unfold zipFile, osCreate, zipCreate, osOpen, ioCopy, zipClose, fileClose,
    bind, ret, logTo, fsop, setFile, readFile, writeFile.
  cbn [files spawned logged fsops snd fst].
  destruct (createFails env (fn ++ ".zip")); [reflexivity|].
  cbn [files spawned logged fsops snd fst].
  destruct (entryFails env fn); cbn [files snd fst];
    rewrite ?eqb_zip_name; [reflexivity|].
  destruct (files w fn) as [data|] eqn:Hdata; cbn [files snd fst];
    rewrite ?eqb_zip_name; [|exact Hdata].
  destruct (openFails env fn); cbn [files snd fst];
    rewrite ?eqb_zip_name; [exact Hdata|].
  destruct (readFails env fn); cbn [files spawned logged fsops snd fst];
    destruct (zipCloseFails env (fn ++ ".zip"));
    cbn [files spawned logged fsops snd fst]; rewrite ?eqb_zip_name;
    try exact Hdata;
    destruct (closeFails env fn); cbn [files snd fst];
    rewrite ?eqb_zip_name; exact Hdata.
Qed.

(** When nothing fails, [zipFile] succeeds and the archive holds one entry,
    named as the file, with the bytes of the file. *)
Lemma zipFile_complete (env : Env) (fn : string) (w : World) (data : string) :
  files w fn = Some data ->
  createFails env (fn ++ ".zip") = None ->
  entryFails env fn = None ->
  openFails env fn = None ->
  readFails env fn = None ->
  zipCloseFails env (fn ++ ".zip") = None ->
  closeFails env fn = None ->
  fst (zipFile env fn w) = None
  /\ files (snd (zipFile env fn w)) (fn ++ ".zip") = Some (zipArchive env [(fn, data)]).
Proof.
  intros Hf Hc He Ho Hr Hz Hcl.
  unfold zipFile, osCreate, zipCreate, osOpen, ioCopy, zipClose, fileClose,
    bind, ret, logTo, fsop, setFile, readFile, writeFile.
  cbn [files spawned logged fsops snd fst].
  rewrite Hc. cbn [files spawned logged fsops snd fst].
  rewrite He. cbn [files spawned logged fsops snd fst].
  rewrite eqb_zip_name, Hf, Ho. cbn [files spawned logged fsops snd fst].
  rewrite Hr. cbn [files spawned logged fsops snd fst].
  rewrite Hz. cbn [files spawned logged fsops snd fst].
  rewrite Hcl. cbn [files spawned logged fsops snd fst].
  now rewrite String.eqb_refl.
Qed.

(** ** Examples: the theorems at concrete inputs, and the inputs at which the
    claims as stated fail *)

Lemma distroCheck_without_force_stop_witness :
  term defaults = false
  /\ distroCheck busyHost defaults 1 "KALI-linux" emptyWorld
     = (Some (false,
              Some "found distribution kali-linux but it is running and -t flag not specified so it will not be terminated"),
        afterRun emptyWorld (wslInvocation wslList) (files emptyWorld)).
Proof.
  split; [reflexivity|].
  exact (proj1 (distroCheck_without_force_stop busyHost defaults 0 "KALI-linux" emptyWorld
           (listing [rowUbuntu; rowKaliRunning]) (files emptyWorld) eq_refl eq_refl)).
Defined.

Lemma distroCheck_force_stop_witness :
  term forceStop = true
  /\ distroCheck stoppingHost forceStop 2 "Kali-Linux" emptyWorld
     = (Some (true, None),
        {| spawned := [wslInvocation wslList; wslInvocation "--terminate kali-linux";
                       wslInvocation wslList];
           logged := [Printf terminating ["kali-linux"]];
           files := files emptyWorld; fsops := [] |}).
Proof.
  split; [reflexivity|].
  exact (proj2 (distroCheck_force_stop stoppingHost forceStop 0 "Kali-Linux" emptyWorld
           (listing [rowUbuntu; rowKaliRunning]) "" (listing [rowUbuntu; rowKaliStopped])
           (files emptyWorld) (files emptyWorld) (files emptyWorld)
           {| name := "kali-linux"; state := "Running"; version := "2" |}
           {| name := "kali-linux"; state := "Stopped"; version := "2" |}
           eq_refl eq_refl eq_refl ltac:(discriminate) eq_refl eq_refl eq_refl eq_refl)).
Defined.

Lemma registry_of_listing_witness :
  registry (strings.Join [header; rowUbuntu; rowKaliStopped] CRLF)
  = [{| name := "Ubuntu"; state := "Running"; version := "2" |};
     {| name := "kali-linux"; state := "Stopped"; version := "2" |}].
Proof.
  exact (proj1 (registry_of_listing header [rowUbuntu; rowKaliStopped]
                  ltac:(repeat constructor))).
Defined.

(** C3 as stated fails: the marker is removed wherever it stands, so a line
    of three fields whose first field ends in a star gives the empty record,
    and a line of four fields can give a record that is not empty. *)
Lemma marker_removed_anywhere :
  strings.Fields "a* b c" = ["a*"; "b"; "c"]
  /\ registry (strings.Join [header; "a* b c"] CRLF) = [emptyInfo]
  /\ strings.Fields "x* y z w" = ["x*"; "y"; "z"; "w"]
  /\ registry (strings.Join [header; "x* y z w"] CRLF)
     = [{| name := "xy"; state := "z"; version := "w" |}].
Proof. vm_compute. repeat split. Qed.

Lemma main_rejects_both_compressions_witness :
  outzip bothCompressions = true
  /\ compact bothCompressions = true
  /\ main busyHost bothCompressions 1 emptyWorld
     = (Some (Fatal (Printf conflictMessage [])), emptyWorld).
Proof.
  split; [reflexivity | split; [reflexivity|]].
  exact (main_rejects_both_compressions busyHost bothCompressions 1 emptyWorld
           eq_refl eq_refl).
Defined.

Lemma compactFile_exited_witness :
  fst (compactFile compacting "backup.vhdx" emptyWorld) = None.
Proof.
  exact (compactFile_exited compacting "backup.vhdx" emptyWorld compactDone None
           (files emptyWorld) eq_refl).
Defined.

(** C6 as stated fails: output that contains the phrase does not make
    [compactFile] succeed when the exit status is not zero, and the error
    returned then does not carry the output. *)
Lemma compactFile_phrase_not_sufficient :
  strings.Contains compactDone compactedPhrase = true
  /\ fst (compactFile compactingExit1 "backup.vhdx" emptyWorld) = Some "exit status 1"
  /\ fst (compactFile compactDenied "backup.vhdx" emptyWorld) = Some "exit status 1"
  /\ strings.Contains "exit status 1" "Access is denied." = false.
Proof. vm_compute. repeat split. Qed.

Lemma bom_transparent_witness :
  decodeOutput (bomLE ++ wide "NAME") = decodeOutput (wide "NAME").
Proof.
  exact (bom_transparent (wide "NAME") eq_refl eq_refl eq_refl).
Defined.

(** C7 as stated fails: the UTF-16LE text U+BBEF U+00BF starts with the
    bytes of the UTF-8 mark.  Alone it is taken for UTF-8 and loses its
    first three bytes; after a little-endian mark it is decoded as
    UTF-16. *)
Lemma bom_not_transparent :
  decodeOutput (bomLE ++ bytes [0xEF; 0xBB; 0xBF; 0x00])
  = (bytes [0xEB; 0xAF; 0xAF; 0xC2; 0xBF], None)
  /\ decodeOutput (bytes [0xEF; 0xBB; 0xBF; 0x00]) = (bytes [0x00], None)
  /\ decodeOutput (bomLE ++ bytes [0xEF; 0xBB; 0xBF; 0x00])
     <> decodeOutput (bytes [0xEF; 0xBB; 0xBF; 0x00]).
Proof. vm_compute. repeat split. discriminate. Qed.



Lemma wslExport_failure_logs_raw_output_witness :
  wslExport exportFailing "kali-linux" "vhdx" "backup.vhdx" emptyWorld
  = (Some "exit status 1",
     {| spawned := [wslInvocation "--export kali-linux --vhd backup.vhdx"];
        logged := [Printf exporting ["kali-linux"; "backup.vhdx"; "vhdx"];
                   Printf ("Failed: %s" ++ nl)
                     [wide "There is not enough space on the disk."]];
        files := files emptyWorld; fsops := [] |}).
Proof.
  exact (proj2 (wslExport_failure_logs_raw_output exportFailing "kali-linux" "vhdx"
                  "backup.vhdx" emptyWorld
                  (wide "There is not enough space on the disk.") "exit status 1"
                  (files emptyWorld) eq_refl)).
Defined.

Lemma malformed_line_matches_only_empty_target_witness :
  threeFields rowTwoFields = false
  /\ name (lineInfo rowTwoFields) = ""
  /\ nameMatches busyHost "kali-linux" (lineInfo rowTwoFields) = false
  /\ rangeDistros busyHost defaults (ret None) "kali-linux" 1
       [rowUbuntu; rowTwoFields; rowKaliStopped]
     = rangeDistros busyHost defaults (ret None) "kali-linux" 1 [rowUbuntu; rowKaliStopped]
  /\ nameMatches busyHost "" (lineInfo rowUbuntu) = false
  /\ find (nameMatches busyHost "") (map lineInfo [rowUbuntu; rowTwoFields; rowKaliStopped])
     = Some (lineInfo rowTwoFields)
  /\ rangeDistros busyHost defaults (ret None) "" 1
       [rowUbuntu; rowTwoFields; rowKaliStopped] emptyWorld
     = (Some (false, Some "found distribution  but it is running and -t flag not specified so it will not be terminated"), emptyWorld).
Proof.
  pose proof (malformed_line_matches_only_empty_target busyHost defaults
                (ret None) rowTwoFields eq_refl) as [H1 [H2 [_ [H4 [H5 [H6 H7]]]]]].
  assert (W : Forall (fun l => threeFields l = true) [rowUbuntu])
    by (repeat constructor).
  destruct (H7 [rowUbuntu] [rowKaliStopped] W) as [P [_ F]].
  split; [reflexivity|]. split; [exact H1|].
  split; [reflexivity|].
  split; [exact (H6 "kali-linux" 0%nat 0%nat [rowUbuntu] [rowKaliStopped]
                   ltac:(discriminate))|].
  split; [exact (Forall_inv P)|].
  split; [exact F|].
  exact (f_equal (fun check => check emptyWorld)
           (eq_trans (H4 0%nat [rowUbuntu] [rowKaliStopped] W) H5)).
Defined.

(** C10 as stated fails: a line of four fields as read, with the marker
    inside its first two, gives a record of three fields once the marker is
    removed; its name is not empty, it matches a target that is not empty,
    and [distroCheck] reports the guest found and stopped. *)
Lemma malformed_as_read_can_match :
  strings.Fields rowMarkedInside = ["kali*"; "-linux"; "Stopped"; "2"]
  /\ lineInfo rowMarkedInside
     = {| name := "kali-linux"; state := "Stopped"; version := "2" |}
  /\ nameMatches markedHost "kali-linux" (lineInfo rowMarkedInside) = true
  /\ distroCheck markedHost defaults 1 "kali-linux" emptyWorld
     = (Some (true, None),
        afterRun emptyWorld (wslInvocation wslList) (files emptyWorld)).
Proof. vm_compute. repeat split. Qed.

(** C4: the code does not do what the claim says.  The export is written,
    the read of it fails after three of its eight bytes, and [zipFile]
    drops the error of [io.Copy]: [main] ends with exit status 0, the
    archive holds the three bytes, and the export has been removed. *)
Theorem zip_of_unreadable_export_removes_it :
  readFails readErrorHost "backup.vhdx" = Some 3%nat
  /\ fst (main readErrorHost zipFlags 1 emptyWorld) = Some (Exit 0)
  /\ files (snd (main readErrorHost zipFlags 1 emptyWorld)) "backup.vhdx" = None
  /\ files (snd (main readErrorHost zipFlags 1 emptyWorld)) "backup.vhdx.zip"
     = Some (zipArchive readErrorHost [("backup.vhdx", "VHD")])
  /\ fsops (snd (main readErrorHost zipFlags 1 emptyWorld))
     = [OpCreate "backup.vhdx.zip"; OpZipEntry "backup.vhdx.zip" "backup.vhdx";
        OpOpen "backup.vhdx"; OpCopy "backup.vhdx.zip" "backup.vhdx";
        OpZipClose "backup.vhdx.zip"; OpClose "backup.vhdx";
        OpRemove "backup.vhdx"].
Proof. vm_compute. repeat split. Qed.

(** * Further properties *)

(** ** Separators of one byte *)

Lemma Cut_char_cons (a c : ascii) (s : string) :
  strings.Cut (String c s) (String a "") = None
  <-> Ascii.eqb a c = false /\ strings.Cut s (String a "") = None.
Proof.
  cbn [strings.Cut strings.trimPrefix].
  destruct (Ascii.eqb a c); [split; [discriminate | intros [? _]; discriminate]|].
  destruct (strings.Cut s (String a "")) as [[? ?]|]; split;
    try discriminate; try (intros [_ ?]; discriminate); auto.
Qed.

Lemma Cut_char_app (a : ascii) (x y : string) :
  strings.Cut x (String a "") = None ->
  strings.Cut y (String a "") = None ->
  strings.Cut (x ++ y) (String a "") = None.
Proof.
  intros Hx Hy. induction x as [|c x IH]; [exact Hy|].
  apply Cut_char_cons in Hx as [Hc Hx].
  change (String c x ++ y) with (String c (x ++ y)).
  apply Cut_char_cons. split; [exact Hc | now apply IH].
Qed.

Lemma Cut_before_char (a : ascii) (x rest : string) :
  strings.Cut x (String a "") = None ->
  strings.Cut (x ++ String a rest) (String a "") = Some (x, rest).
Proof.
  induction x as [|c x IH]; intros H.
  - cbn [append strings.Cut strings.trimPrefix]. now rewrite Ascii.eqb_refl.
  - apply Cut_char_cons in H as [Hc Hx].
    change (String c x ++ String a rest) with (String c (x ++ String a rest)).
    cbn [strings.Cut strings.trimPrefix]. rewrite Hc, (IH Hx). reflexivity.
Qed.

Lemma Split_space_step (x rest : string) :
  strings.Cut x " " = None ->
  strings.Split (x ++ " " ++ rest) " " = x :: strings.Split rest " ".
Proof.
  intros H. unfold strings.Split.
  pose proof (Cut_before_char " "%char x rest H) as C.
  change (String " " rest) with (" " ++ rest) in C.
  pose proof (Cut_length _ _ _ _ C) as L.
  destruct (String.length (x ++ " " ++ rest)) as [|n] eqn:E.
  - simpl in L. lia.
  - cbn [strings.splitLoop]. rewrite C. f_equal.
    apply splitLoop_rounds; [discriminate | simpl in L; lia | lia].
Qed.

(** The arguments of the export command.  [wslCmd] splits its argument
    string at every space (line 41), so for a distribution name without a
    space the command receives [--export], the name, [--vhd] for the vhdx
    format only, and then the output path cut at each of its spaces: a path
    with a space arrives as several arguments. *)
Theorem export_argv (distro format of_ : string) :
  strings.Contains distro " " = false ->
  argv (wslInvocation (exportCommand distro format of_))
  = ("--export" :: distro
       :: (if String.eqb format "vhdx" then ["--vhd"] else [])
       ++ strings.Split of_ " ")%list.
Proof.
  intros Hd. apply Contains_Cut in Hd.
  unfold wslInvocation, exportCommand. cbn [argv].
  change ("--export " ++ distro ++ (if String.eqb format "vhdx" then " --vhd" else "") ++ " " ++ of_)
    with ("--export" ++ " " ++ (distro ++ (if String.eqb format "vhdx" then " --vhd" else "") ++ " " ++ of_)).
  rewrite Split_space_step by reflexivity. f_equal.
  destruct (String.eqb format "vhdx").
  - change (distro ++ " --vhd" ++ " " ++ of_) with (distro ++ " " ++ ("--vhd" ++ " " ++ of_)).
    rewrite Split_space_step by exact Hd. f_equal.
    now rewrite Split_space_step by reflexivity.
  - change (distro ++ "" ++ " " ++ of_) with (distro ++ " " ++ of_).
    now rewrite Split_space_step by exact Hd.
Qed.

(** ** Bytes as numbers *)

Lemma byte_val_range (c : ascii) : 0 <= byte_val c < 256.
Proof.
  unfold byte_val. pose proof (N_ascii_bounded c) as H. lia.
Qed.

Lemma byte_of_val (c : ascii) : byte_of (byte_val c) = c.
Proof.
  unfold byte_of, byte_val. rewrite N2Z.id. apply ascii_N_embedding.
Qed.

Lemma byte_val_of (z : Z) : 0 <= z < 256 -> byte_val (byte_of z) = z.
Proof.
  intros H. unfold byte_of, byte_val.
  rewrite N_ascii_embedding by lia. lia.
Qed.

Lemma byte_val_inj (a b : ascii) : byte_val a = byte_val b -> a = b.
Proof.
  intros H. rewrite <- (byte_of_val a), <- (byte_of_val b). now rewrite H.
Qed.

Lemma eqb_space (c : ascii) : byte_val c <> 0x20 -> Ascii.eqb " " c = false.
Proof.
  intros H. apply Ascii.eqb_neq. intros <-. now apply H.
Qed.

(** ** Fields hold no space *)

Lemma IsSpace_space : stdunicode.IsSpace 0x20 = true.
Proof. reflexivity. Qed.

Ltac no_space :=
  repeat (apply Cut_char_cons; split; [apply eqb_space; lia|]); reflexivity.

(** The bytes of a rune that is no white space hold no space. *)
Lemma rune_bytes_no_space (c0 : ascii) (t0 : string) :
  let '(r, size) := utf8.DecodeRuneInString (String c0 t0) in
  stdunicode.IsSpace r = false ->
  strings.Cut (substring 0 size (String c0 t0)) " " = None.
Proof.
  pose proof (byte_val_range c0) as R0.
  cbn [utf8.DecodeRuneInString]. unfold utf8.RuneSelf, utf8.accept.
  assert (S1 : forall s, substring 0 1 (String c0 s) = String c0 "")
    by (intros s; cbn [substring]; now destruct s).
  destruct (byte_val c0 <? 128) eqn:E0.
  { intros Hsp. rewrite S1. apply Cut_char_cons. split; [|reflexivity].
    apply eqb_space. intros E. rewrite E in Hsp. discriminate. }
  apply Z.ltb_ge in E0.
  assert (Hone : strings.Cut (substring 0 1 (String c0 t0)) " " = None).
  { rewrite S1. apply Cut_char_cons. split; [apply eqb_space; lia | reflexivity]. }
  destruct ((byte_val c0 <? 194) || (244 <? byte_val c0)); [intros _; exact Hone|].
  assert (Hpair : forall lo hi : Z, 128 <= lo ->
    let '(r, size) :=
      (let '(lo, hi) := (lo, hi) in
      match t0 with
      | "" => (utf8.RuneError, 1%nat)
      | String c1 t1 =>
        if negb (utf8.between lo hi c1) then (utf8.RuneError, 1%nat)
        else if byte_val c0 <? 0xE0 then
          (Z.lor (Z.shiftl (Z.land (byte_val c0) 0x1F) 6) (utf8.low6 c1), 2%nat)
        else
          match t1 with
          | "" => (utf8.RuneError, 1%nat)
          | String c2 t2 =>
            if negb (utf8.isCont c2) then (utf8.RuneError, 1%nat)
            else if byte_val c0 <? 0xF0 then
              (Z.lor (Z.shiftl (Z.land (byte_val c0) 0x0F) 12)
                 (Z.lor (Z.shiftl (utf8.low6 c1) 6) (utf8.low6 c2)), 3%nat)
            else
              match t2 with
              | "" => (utf8.RuneError, 1%nat)
              | String c3 _ =>
                if negb (utf8.isCont c3) then (utf8.RuneError, 1%nat)
                else
                  (Z.lor (Z.shiftl (Z.land (byte_val c0) 0x07) 18)
                     (Z.lor (Z.shiftl (utf8.low6 c1) 12)
                        (Z.lor (Z.shiftl (utf8.low6 c2) 6) (utf8.low6 c3))), 4%nat)
              end
          end
      end) in
    stdunicode.IsSpace r = false ->
    strings.Cut (substring 0 size (String c0 t0)) " " = None).
  { intros lo hi Hlo. cbv beta iota.
    destruct t0 as [|c1 t1]; [intros _; exact Hone|].
    destruct (utf8.between lo hi c1) eqn:B1; cbn [negb]; [|intros _; exact Hone].
    unfold utf8.between in B1. apply andb_prop in B1 as [B1 _]. apply Z.leb_le in B1.
    destruct (byte_val c0 <? 224).
    { intros _. cbn [substring]. destruct t1; no_space. }
    destruct t1 as [|c2 t2]; [intros _; exact Hone|].
    destruct (utf8.isCont c2) eqn:B2; cbn [negb]; [|intros _; exact Hone].
    unfold utf8.isCont in B2. apply andb_prop in B2 as [B2 _]. apply Z.leb_le in B2.
    destruct (byte_val c0 <? 240).
    { intros _. cbn [substring]. destruct t2; no_space. }
    destruct t2 as [|c3 t3]; [intros _; exact Hone|].
    destruct (utf8.isCont c3) eqn:B3; cbn [negb]; [|intros _; exact Hone].
    unfold utf8.isCont in B3. apply andb_prop in B3 as [B3 _]. apply Z.leb_le in B3.
    intros _. cbn [substring]. destruct t3; no_space. }
  destruct (byte_val c0 =? 224); [apply (Hpair 0xA0 0xBF); lia|].
  destruct (byte_val c0 =? 237); [apply (Hpair 0x80 0x9F); lia|].
  destruct (byte_val c0 =? 240); [apply (Hpair 0x90 0xBF); lia|].
  destruct (byte_val c0 =? 244); [apply (Hpair 0x80 0x8F); lia|].
  apply (Hpair 0x80 0xBF); lia.
Qed.

Lemma rangeFrom_no_space (s : string) :
  forall skip, Forall spaceFree (utf8.rangeFrom skip s).
Proof.
  induction s as [|c s IH]; intros skip; [constructor|].
  cbn [utf8.rangeFrom]. destruct skip as [|k]; [|apply IH].
  pose proof (rune_bytes_no_space c s) as H.
  destruct (utf8.DecodeRuneInString (String c s)) as [r size].
  constructor; [exact H | apply IH].
Qed.

Lemma fieldsLoop_no_space (span : string) (rs : list (Z * string)) :
  strings.Cut span " " = None ->
  Forall spaceFree rs ->
  Forall (fun f => strings.Cut f " " = None)
    (strings.fieldsLoop stdunicode.IsSpace span rs).
Proof.
  intros Hspan Hrs. revert span Hspan.
  induction Hrs as [|[r b] rs Hrb _ IH]; intros span Hspan; cbn [strings.fieldsLoop].
  - destruct (String.eqb span ""); repeat constructor. exact Hspan.
  - destruct (stdunicode.IsSpace r) eqn:E.
    + destruct (String.eqb span ""); [now apply IH|].
      constructor; [exact Hspan | now apply IH].
    + apply IH. apply Cut_char_app; [exact Hspan | exact (Hrb E)].
Qed.

Lemma Fields_no_space (s : string) :
  Forall (fun f => strings.Cut f " " = None) (strings.Fields s).
Proof.
  apply fieldsLoop_no_space; [reflexivity | apply rangeFrom_no_space].
Qed.

Lemma name_no_space (d : string) : strings.Cut (name (lineInfo d)) " " = None.
Proof.
  rewrite lineInfo_fields.
  pose proof (Fields_no_space (strings.Replace d marker "" (-1))) as H.
  destruct (strings.Fields _) as [|f0 [|f1 [|f2 [|f3 l]]]]; try reflexivity.
  now inversion H.
Qed.

(** The terminate command of line 98 always has exactly two arguments,
    [--terminate] and the name as listed: a name read by [strings.Fields]
    holds no space, so the split of line 41 cannot cut it. *)
Theorem terminate_argv (d : string) :
  argv (wslInvocation ("--terminate " ++ name (lineInfo d)))
  = ["--terminate"; name (lineInfo d)].
Proof.
  unfold wslInvocation. cbn [argv].
  change ("--terminate " ++ name (lineInfo d))
    with ("--terminate" ++ " " ++ name (lineInfo d)).
  rewrite Split_space_step by reflexivity. f_equal.
  apply Split_whole, name_no_space.
Qed.

(** ** ASCII text *)

Lemma ascii_eqb_val (a b : ascii) : Ascii.eqb a b = (byte_val a =? byte_val b).
Proof.
  destruct (Ascii.eqb a b) eqn:E.
  - apply Ascii.eqb_eq in E. subst. symmetry. apply Z.eqb_refl.
  - symmetry. apply Z.eqb_neq. intros H. apply byte_val_inj in H.
    apply Ascii.eqb_neq in E. contradiction.
Qed.

Lemma byte_val_lower (c : ascii) :
  byte_val (lowerByte c)
  = if (0x41 <=? byte_val c) && (byte_val c <=? 0x5A) then byte_val c + 0x20
    else byte_val c.
Proof.
  unfold lowerByte. pose proof (byte_val_range c) as R.
  destruct ((0x41 <=? byte_val c) && (byte_val c <=? 0x5A)) eqn:E; [|reflexivity].
  apply andb_prop in E as [E1 E2]. apply Z.leb_le in E1, E2.
  apply byte_val_of. lia.
Qed.

Lemma range_ascii (c : ascii) (s : string) :
  byte_val c < utf8.RuneSelf ->
  utf8.range (String c s) = (byte_val c, String c "") :: utf8.range s.
Proof.
  intros H. unfold utf8.range. cbn [utf8.rangeFrom utf8.DecodeRuneInString].
  apply Z.ltb_lt in H. rewrite H. cbn [substring Nat.sub].
  now destruct s.
Qed.

Lemma equalFoldRune_ascii (fold : Z -> Z -> bool) (a b : ascii) :
  byte_val a < utf8.RuneSelf -> byte_val b < utf8.RuneSelf ->
  strings.equalFoldRune fold (byte_val a) (byte_val b)
  = Ascii.eqb (lowerByte a) (lowerByte b).
Proof.
  unfold utf8.RuneSelf. intros Ha Hb.
  pose proof (byte_val_range a) as Ra. pose proof (byte_val_range b) as Rb.
  rewrite ascii_eqb_val, !byte_val_lower.
  unfold strings.equalFoldRune, utf8.RuneSelf.
  set (x := byte_val a) in *. set (y := byte_val b) in *. clearbody x y.
  destruct (y =? x) eqn:E.
  - apply Z.eqb_eq in E. subst y. symmetry. apply Z.eqb_refl.
  - apply Z.eqb_neq in E.
    assert ((Z.max x y <? 128) = true) as -> by (apply Z.ltb_lt; lia).
    destruct (Z.le_ge_cases x y) as [L|G].
    + rewrite (Z.min_l x y L), (Z.max_r x y L).
      destruct (65 <=? x) eqn:Ax, (x <=? 90) eqn:Zx, (65 <=? y) eqn:Ay,
        (y <=? 90) eqn:Zy; cbn [andb];
        repeat match goal with
               | H : (_ <=? _) = true |- _ => apply Z.leb_le in H
               | H : (_ <=? _) = false |- _ => apply Z.leb_gt in H
               end;
        first [ reflexivity | symmetry; apply Z.eqb_neq; lia
              | destruct (y =? x + 32) eqn:F;
                [apply Z.eqb_eq in F; symmetry; apply Z.eqb_eq; lia
                |apply Z.eqb_neq in F; symmetry; apply Z.eqb_neq; lia] ].
    + rewrite (Z.min_r x y G), (Z.max_l x y G).
      destruct (65 <=? x) eqn:Ax, (x <=? 90) eqn:Zx, (65 <=? y) eqn:Ay,
        (y <=? 90) eqn:Zy; cbn [andb];
        repeat match goal with
               | H : (_ <=? _) = true |- _ => apply Z.leb_le in H
               | H : (_ <=? _) = false |- _ => apply Z.leb_gt in H
               end;
        first [ reflexivity | symmetry; apply Z.eqb_neq; lia
              | destruct (x =? y + 32) eqn:F;
                [apply Z.eqb_eq in F; symmetry; apply Z.eqb_eq; lia
                |apply Z.eqb_neq in F; symmetry; apply Z.eqb_neq; lia] ].
Qed.

(** On ASCII text [strings.EqualFold] compares the lower-cased bytes, and
    the fold tables play no part. *)
Lemma EqualFold_ascii (fold : Z -> Z -> bool) (s t : string) :
  isASCII s = true -> isASCII t = true ->
  strings.EqualFold fold s t = String.eqb (lowerASCII s) (lowerASCII t).
Proof.
  unfold strings.EqualFold. revert t.
  induction s as [|a s IH]; intros t Hs Ht.
  - destruct t as [|b t]; [reflexivity|].
    cbn [isASCII] in Ht. apply andb_prop in Ht as [Hb _]. apply Z.ltb_lt in Hb.
    now rewrite range_ascii.
  - cbn [isASCII] in Hs. apply andb_prop in Hs as [Ha Hs]. apply Z.ltb_lt in Ha.
    rewrite range_ascii by exact Ha.
    destruct t as [|b t]; [reflexivity|].
    cbn [isASCII] in Ht. apply andb_prop in Ht as [Hb Ht]. apply Z.ltb_lt in Hb.
    rewrite range_ascii by exact Hb.
    cbn [strings.equalFoldLoop lowerASCII String.eqb].
    rewrite equalFoldRune_ascii by assumption.
    destruct (Ascii.eqb (lowerByte a) (lowerByte b)); [now apply IH | reflexivity].
Qed.

(** ** ASCII text through the decoder *)

Lemma decodeLoop_wide (s : string) :
  isASCII s = true ->
  unicode.encodeRunes (unicode.decodeLoop unicode.LittleEndian (wide s)) = s.
Proof.
  induction s as [|c s IH]; intros H; [reflexivity|].
  cbn [isASCII] in H. apply andb_prop in H as [Hc Hs].
  unfold utf8.RuneSelf in Hc. apply Z.ltb_lt in Hc.
  pose proof (byte_val_range c) as R.
  cbn [wide unicode.decodeLoop].
  assert (E : unicode.codeUnit unicode.LittleEndian c (byte_of 0) = byte_val c)
    by (unfold unicode.codeUnit; change (byte_val (byte_of 0)) with 0; lia).
  rewrite E.
  assert (utf16.IsSurrogate (byte_val c) = false) as ->.
  { unfold utf16.IsSurrogate, utf16.surr1.
    apply andb_false_intro1. apply Z.leb_gt. lia. }
  assert (unicode.checked (byte_val c) = byte_val c) as ->.
  { unfold unicode.checked, utf8.RuneLen.
    assert ((byte_val c <? 0) = false) as -> by (apply Z.ltb_ge; lia).
    assert ((byte_val c <=? 127) = true) as -> by (apply Z.leb_le; lia).
    reflexivity. }
  cbn [unicode.encodeRunes fold_right]. fold (unicode.encodeRunes
    (unicode.decodeLoop unicode.LittleEndian (wide s))).
  rewrite (IH Hs). unfold utf8.EncodeRune.
  assert ((0 <=? byte_val c) && (byte_val c <=? 127) = true) as ->.
  { apply andb_true_intro. split; apply Z.leb_le; lia. }
  cbn [append]. now rewrite byte_of_val.
Qed.

Lemma wide_no_mark (s : string) :
  isASCII s = true ->
  unicode.startsWith 0xFF 0xFE (wide s) = false
  /\ unicode.startsWith 0xFE 0xFF (wide s) = false
  /\ unicode.startsWithUTF8BOM (wide s) = false.
Proof.
  destruct s as [|c s]; [repeat split|].
  cbn [isASCII]. intros H. apply andb_prop in H as [Hc _].
  unfold utf8.RuneSelf in Hc. apply Z.ltb_lt in Hc.
  cbn [wide unicode.startsWith unicode.startsWithUTF8BOM].
  assert ((byte_val c =? 255) = false) as -> by (apply Z.eqb_neq; lia).
  assert ((byte_val c =? 254) = false) as -> by (apply Z.eqb_neq; lia).
  assert ((byte_val c =? 239) = false) as -> by (apply Z.eqb_neq; lia).
  destruct s; repeat split.
Qed.

Lemma decodeOutput_wide_plain (s : string) :
  isASCII s = true -> decodeOutput (wide s) = (s, None).
Proof.
  intros H. rewrite decodeOutput_cases.
  destruct (wide_no_mark s H) as [-> [-> ->]]. now rewrite decodeLoop_wide.
Qed.

(** The decoding of lines 61-64 gives ASCII text back: the UTF-16
    little-endian bytes of an ASCII text [s], with or without the byte order
    mark before them, decode to [s], and no error is returned. *)
Theorem decodeOutput_wide (s : string) :
  isASCII s = true ->
  decodeOutput (wide s) = (s, None) /\ decodeOutput (bomLE ++ wide s) = (s, None).
Proof.
  intros H. split; [now apply decodeOutput_wide_plain|].
  - rewrite decodeOutput_cases.
    change (unicode.startsWith 255 254 (bomLE ++ wide s)) with true. cbv iota.
    change (unicode.drop 2 (bomLE ++ wide s)) with (wide s).
    now rewrite decodeLoop_wide.
Qed.

Lemma isASCII_app (s t : string) :
  isASCII (s ++ t) = isASCII s && isASCII t.
Proof.
  induction s as [|c s IH]; [reflexivity|].
  cbn [append isASCII]. rewrite IH. now rewrite andb_assoc.
Qed.

Lemma isASCII_Join (first : string) (rest : list string) :
  Forall (fun l => isASCII l = true) (first :: rest) ->
  isASCII (strings.Join (first :: rest) CRLF) = true.
Proof.
  revert first. induction rest as [|l ls IH]; intros first H.
  - now inversion H.
  - inversion H as [|? ? H1 H2]; subst.
    change (strings.Join (first :: l :: ls) CRLF)
      with (first ++ CRLF ++ strings.Join (l :: ls) CRLF).
    rewrite !isASCII_app, H1, (IH l H2). reflexivity.
Qed.

Lemma Join_trailing (first : string) (rest : list string) :
  strings.Join (first :: rest) CRLF ++ CRLF
  = strings.Join (first :: rest ++ [""]) CRLF.
Proof.
  revert first. induction rest as [|l ls IH]; intros first.
  - reflexivity.
  - change (strings.Join (first :: l :: ls) CRLF)
      with (first ++ CRLF ++ strings.Join (l :: ls) CRLF).
    change (strings.Join (first :: (l :: ls) ++ [""]) CRLF)
      with (first ++ CRLF ++ strings.Join (l :: ls ++ [""]) CRLF).
    rewrite <- IH. now rewrite !string_app_assoc.
Qed.

(** From the bytes of the command to the records.  When [wsl -l -v] prints
    a header and rows in ASCII, each ended by CR LF, as UTF-16, the records
    [distroCheck] walks over are those of the rows, in order, followed by
    one empty record: the text after the last CR LF is an empty line of its
    own for [strings.Split]. *)
Theorem registry_of_wsl_output (head : string) (rows : list string) :
  Forall (fun l => isASCII l = true) (head :: rows) ->
  Forall (fun l => strings.Contains l CRLF = false) (head :: rows) ->
  registry (fst (decodeOutput (wide (strings.Join (head :: rows) CRLF ++ CRLF))))
  = (map lineInfo rows ++ [emptyInfo])%list.
Proof.
  intros Ha Hc.
  assert (A : isASCII (strings.Join (head :: rows) CRLF ++ CRLF) = true)
    by (rewrite isASCII_app, isASCII_Join by exact Ha; reflexivity).
  rewrite (decodeOutput_wide_plain _ A). cbn [fst].
  rewrite Join_trailing. unfold registry.
  rewrite Split_Join.
  - cbn [tl]. now rewrite map_app.
  - inversion Hc as [|? ? H1 H2]; subst. constructor; [exact H1|].
    apply Forall_app. split; [exact H2 | repeat constructor].
Qed.

(** ** Commands that fail *)

Lemma wslCmd_failed (env : Env) (flags : string) (w : World)
  (o : ProcOutcome) (e : error) (fs : Files) :
  outcomeError o = Some e ->
  host env (spawned w ++ [wslInvocation flags]) (files w) = (o, fs) ->
  wslCmd env flags w = ((outcomeOutput o, Some e), afterRun w (wslInvocation flags) fs).
Proof.
  intros He H. unfold wslCmd, bind, run. fold (wslInvocation flags). rewrite H.
  destruct o as [e'|e'|e'|out [e'|]]; cbn in He; inversion He; subst; reflexivity.
Qed.

Lemma wslCmd_world (env : Env) (flags : string) (w : World) :
  snd (wslCmd env flags w)
  = afterRun w (wslInvocation flags)
      (snd (host env (spawned w ++ [wslInvocation flags]) (files w))).
Proof.
  unfold wslCmd, bind, run. fold (wslInvocation flags).
  destruct (host env _ _) as [o fs].
  destruct o as [e|e|e|out [e|]]; reflexivity.
Qed.

Lemma wslExport_run (env : Env) (distro format of_ : string) (w : World)
  (o : ProcOutcome) (fs : Files) :
  host env (spawned w ++ [wslInvocation (exportCommand distro format of_)]) (files w)
  = (o, fs) ->
  wslExport env distro format of_ w =
    (outcomeError o,
     afterLog (afterRun w (wslInvocation (exportCommand distro format of_)) fs)
       [Printf exporting [distro; of_; format];
        match outcomeError o with
        | Some _ => Printf ("Failed: %s" ++ nl) [outcomeOutput o]
        | None => Printf "Export suceeded: %s" [fst (decodeOutput (outcomeOutput o))]
        end]).
Proof.
  intros H. unfold wslExport. fold (exportCommand distro format of_).
  unfold bind at 1. unfold logTo at 1. unfold bind at 1.
  destruct (outcomeError o) as [e|] eqn:E.
  - erewrite wslCmd_failed; [|exact E|exact H].
    unfold bind, logTo, ret, afterLog, afterRun. cbn [spawned logged files fsops].
    now rewrite <- app_assoc.
  - destruct o as [e|e|e|out [e|]]; try discriminate.
    erewrite wslCmd_exited by exact H.
    unfold bind, logTo, ret, afterLog, afterRun. cbn [spawned logged files fsops outcomeOutput].
    now rewrite <- app_assoc.
Qed.

(** [wslExport] whatever the export command does.  It runs that one
    command and logs two entries, the announcement and the result.  It
    returns an error exactly when the command could not be run to a zero
    exit status; the [Failed] entry then carries the bytes read from the
    command (none when it could not be started or read), and the entry of
    a success carries its decoded output. *)
Theorem wslExport_outcome (env : Env) (distro format of_ : string) (w : World)
  (o : ProcOutcome) (fs : Files) :
  let c := wslInvocation (exportCommand distro format of_) in
  host env (spawned w ++ [c]) (files w) = (o, fs) ->
  wslExport env distro format of_ w =
    (outcomeError o,
     afterLog (afterRun w c fs)
       [Printf exporting [distro; of_; format];
        match outcomeError o with
        | Some _ => Printf ("Failed: %s" ++ nl) [outcomeOutput o]
        | None => Printf "Export suceeded: %s" [fst (decodeOutput (outcomeOutput o))]
        end]).
Proof. intros c. apply wslExport_run. Qed.

(** When the listing command fails (it cannot be started or read, or it
    exits with a non-zero status), [distroCheck] returns [false] with the
    error of the command, having run nothing else and logged nothing,
    whatever the flags. *)
Theorem distroCheck_listing_fails (env : Env) (cfg : Flags) (fuel : nat)
  (target : string) (w : World) (o : ProcOutcome) (e : error) (fs : Files) :
  outcomeError o = Some e ->
  host env (spawned w ++ [wslInvocation wslList]) (files w) = (o, fs) ->
  distroCheck env cfg (S fuel) target w
  = (Some (false, Some e), afterRun w (wslInvocation wslList) fs).
Proof.
  intros He H. cbn [distroCheck]. unfold bind at 1.
  now rewrite (wslCmd_failed _ _ _ _ _ _ He H).
Qed.

(** With [-t], when the distribution is listed in a state other than
    [Stopped] and the terminate command fails, [distroCheck] returns
    [false] with the error of that command: the listing is not read again
    and the commands run are the listing and the terminate command. *)
Theorem distroCheck_terminate_fails (env : Env) (cfg : Flags) (fuel : nat)
  (target : string) (w : World) (raw : string) (fs1 fs2 : Files) (nfo : dinfo)
  (o : ProcOutcome) (e : error) :
  let L := wslInvocation wslList in
  let T := wslInvocation ("--terminate " ++ name nfo) in
  term cfg = true ->
  host env (spawned w ++ [L]) (files w) = (Exited raw None, fs1) ->
  find (nameMatches env target) (registry (fst (decodeOutput raw))) = Some nfo ->
  state nfo <> "Stopped" ->
  outcomeError o = Some e ->
  host env (spawned w ++ [L; T]) fs1 = (o, fs2) ->
  distroCheck env cfg (S fuel) target w
  = (Some (false, Some e),
     {| spawned := spawned w ++ [L; T];
        logged := logged w ++ [Printf terminating [name nfo]];
        files := fs2; fsops := fsops w |}).
Proof.
  intros L T Hterm H1 F1 Hrun He H2.
  rewrite (distroCheck_listed _ _ _ _ _ _ _ H1), F1.
  unfold matched. rewrite Hterm.
  destruct (String.eqb (state nfo) "Stopped") eqn:E;
    [apply String.eqb_eq in E; contradiction|].
  unfold bind at 1. unfold logTo. unfold bind at 1.
  cbn [afterRun spawned logged files fsops].
  erewrite wslCmd_failed; [|exact He|].
  2:{ cbn [spawned files]. fold L T. rewrite <- app_assoc. exact H2. }
  unfold ret, afterRun. cbn [spawned logged files fsops]. fold L T.
  now rewrite <- app_assoc.
Qed.

Lemma distroCheck_retry (env : Env) (cfg : Flags) (fuel : nat)
  (target : string) (w : World) (raw out : string) (fs1 fs2 : Files) (nfo : dinfo) :
  let L := wslInvocation wslList in
  let T := wslInvocation ("--terminate " ++ name nfo) in
  term cfg = true ->
  host env (spawned w ++ [L]) (files w) = (Exited raw None, fs1) ->
  find (nameMatches env target) (registry (fst (decodeOutput raw))) = Some nfo ->
  state nfo <> "Stopped" ->
  host env (spawned w ++ [L; T]) fs1 = (Exited out None, fs2) ->
  distroCheck env cfg (S fuel) target w
  = distroCheck env cfg fuel target
      {| spawned := spawned w ++ [L; T];
         logged := logged w ++ [Printf terminating [name nfo]];
         files := fs2; fsops := fsops w |}.
Proof.
  intros L T Hterm H1 F1 Hrun H2.
  rewrite (distroCheck_listed _ _ _ _ _ _ _ H1), F1.
  unfold matched. rewrite Hterm.
  destruct (String.eqb (state nfo) "Stopped") eqn:E;
    [apply String.eqb_eq in E; contradiction|].
  unfold bind at 1. unfold logTo. unfold bind at 1.
  cbn [afterRun spawned logged files fsops].
  erewrite wslCmd_exited.
  2:{ cbn [spawned files]. fold L T. rewrite <- app_assoc. exact H2. }
  unfold afterRun. cbn [spawned logged files fsops].
  now rewrite <- app_assoc.
Qed.

(** The recursion of line 104 has no bound.  On a host where every command
    exits with status zero and the listing keeps showing the distribution in
    a state other than [Stopped], [distroCheck] with [-t] does not return:
    whatever the number of rounds allowed, it has not returned at their end,
    and each round has run two more commands. *)
Theorem distroCheck_never_concludes (env : Env) (cfg : Flags) (target : string)
  (raw : string) (nfo : dinfo) :
  term cfg = true ->
  (forall history fs, host env history fs = (Exited raw None, fs)) ->
  find (nameMatches env target) (registry (fst (decodeOutput raw))) = Some nfo ->
  state nfo <> "Stopped" ->
  forall fuel w,
    fst (distroCheck env cfg fuel target w) = None
    /\ List.length (spawned (snd (distroCheck env cfg fuel target w)))
       = (List.length (spawned w) + 2 * fuel)%nat.
Proof.
  intros Hterm Hhost F Hrun. induction fuel as [|fuel IH]; intros w.
  - cbn. split; [reflexivity | lia].
  - rewrite (distroCheck_retry env cfg fuel target w raw raw (files w) (files w) nfo
               Hterm (Hhost _ _) F Hrun (Hhost _ _)).
    destruct (IH {| spawned := spawned w ++ [wslInvocation wslList;
                       wslInvocation ("--terminate " ++ name nfo)];
                    logged := logged w ++ [Printf terminating [name nfo]];
                    files := files w; fsops := fsops w |}) as [I1 I2].
    split; [exact I1|]. rewrite I2. cbn [spawned]. rewrite List.length_app. cbn [List.length]. lia.
Qed.

(** Output of the listing command that holds no CR LF is all header: no
    line of it is looked at, and [distroCheck] returns [false] without an
    error, whatever the target. *)
Theorem distroCheck_single_line (env : Env) (cfg : Flags) (fuel : nat)
  (target : string) (w : World) (raw : string) (fs : Files) :
  host env (spawned w ++ [wslInvocation wslList]) (files w) = (Exited raw None, fs) ->
  strings.Contains (fst (decodeOutput raw)) CRLF = false ->
  distroCheck env cfg (S fuel) target w
  = (Some (false, None), afterRun w (wslInvocation wslList) fs).
Proof.
  intros H Hc. rewrite (distroCheck_listed _ _ _ _ _ _ _ H).
  unfold registry. rewrite Split_whole by now apply Contains_Cut. reflexivity.
Qed.

(** ** The effects of [distroCheck] *)

Lemma outcomeError_cases (o : ProcOutcome) :
  (exists e, outcomeError o = Some e) \/ (exists raw, o = Exited raw None).
Proof.
  destruct o as [e|e|e|out [e|]]; cbn; eauto.
Qed.

Lemma checkStep_listing (env : Env) (cfg : Flags) (target : string) (w : World)
  (o : ProcOutcome) (fs : Files) :
  host env (spawned w ++ [wslInvocation wslList]) (files w) = (o, fs) ->
  checkStep env cfg target w (afterRun w (wslInvocation wslList) fs).
Proof.
  intros H. split; [reflexivity|]. split; [reflexivity|].
  exists [wslInvocation wslList]. split; [reflexivity|].
  cbn [afterRun files]. now apply (trace_listing env target _ _ o).
Qed.

Lemma checkStep_distroCheck (env : Env) (cfg : Flags) (target : string) :
  forall fuel w, checkStep env cfg target w (snd (distroCheck env cfg fuel target w)).
Proof.
  induction fuel as [|fuel IH]; intros w.
  { split; [reflexivity|]. split; [reflexivity|].
    exists []. split; [now rewrite app_nil_r | apply trace_none]. }
  destruct (host env (spawned w ++ [wslInvocation wslList]) (files w)) as [o fs1] eqn:H1.
  destruct (outcomeError_cases o) as [[e E]|[raw ->]].
  { cbn [distroCheck]. unfold bind at 1.
    rewrite (wslCmd_failed _ _ _ _ _ _ E H1). cbn [snd ret].
    now apply (checkStep_listing env cfg target w o). }
  rewrite (distroCheck_listed _ _ _ _ _ _ _ H1).
  destruct (find _ _) as [nfo|] eqn:F;
    [|now apply (checkStep_listing env cfg target w (Exited raw None))].
  unfold matched.
  destruct (String.eqb (state nfo) "Stopped") eqn:S;
    [now apply (checkStep_listing env cfg target w (Exited raw None))|].
  destruct (term cfg) eqn:Hterm;
    [|now apply (checkStep_listing env cfg target w (Exited raw None))].
  apply String.eqb_neq in S.
  destruct (find_some _ _ F) as [Hin Hm].
  unfold registry in Hin. apply in_map_iff in Hin as [d [Hd Hin]]. subst nfo.
  unfold bind at 1. unfold logTo. unfold bind at 1.
  cbn [afterRun spawned logged files fsops].
  set (T := wslInvocation ("--terminate " ++ name (lineInfo d))).
  set (L := wslInvocation wslList) in *.
  destruct (host env (spawned w ++ [L; T]) fs1) as [o2 fs2] eqn:H2.
  set (w1 := {| spawned := spawned w ++ [L]; logged := _; files := fs1; fsops := fsops w |}).
  assert (H2' : host env (spawned w1 ++ [T]) (files w1) = (o2, fs2))
    by (cbn [w1 spawned files]; rewrite <- app_assoc; exact H2).
  destruct (outcomeError_cases o2) as [[e E]|[out ->]].
  - rewrite (wslCmd_failed _ _ _ _ _ _ E H2'). cbn [snd ret].
    split; [reflexivity|]. split; [intros Hf; congruence|].
    exists [L; T]. split; [cbn [afterRun w1 spawned]; now rewrite <- app_assoc|].
    cbn [afterRun files].
    eapply trace_terminate; eauto. apply trace_none.
  - rewrite (wslCmd_exited _ _ _ _ _ _ H2'). cbv beta iota. fold T.
    destruct (IH (afterRun w1 T fs2)) as [I1 [_ [cmds [I3 I4]]]].
    split; [rewrite I1; reflexivity|]. split; [intros Hf; congruence|].
    exists (L :: T :: cmds). split.
    + rewrite I3. cbn [afterRun w1 spawned]. now rewrite <- !app_assoc.
    + cbn [afterRun w1 spawned files] in I4. rewrite <- app_assoc in I4.
      eapply trace_terminate; eauto.
Qed.

(** What [distroCheck] does to the world, whatever the host answers and
    however often it recurses: no file operation; no log entry unless [-t]
    is given; and the commands it runs are rounds of the listing command,
    each followed by a terminate command only when the host answered that
    listing with a zero exit status and a text in which the first record
    matching the target comes from a line after the header and is not
    [Stopped]; the terminate command is for the name read from that line. *)
Theorem distroCheck_effects (env : Env) (cfg : Flags) (fuel : nat)
  (target : string) (w : World) :
  fsops (snd (distroCheck env cfg fuel target w)) = fsops w
  /\ (term cfg = false ->
      logged (snd (distroCheck env cfg fuel target w)) = logged w)
  /\ exists cmds,
       spawned (snd (distroCheck env cfg fuel target w)) = (spawned w ++ cmds)%list
       /\ checkTrace env target (spawned w) (files w) cmds
            (files (snd (distroCheck env cfg fuel target w))).
Proof. apply checkStep_distroCheck. Qed.

(** ** [main] from end to end *)

(** The [switch] of lines 208-214: for every format other than [vhdx] and
    [tar], [main] ends in [log.Fatal] before anything else happens (no
    command, no log entry, no file operation); the message is the one for
    [zip], or the one that quotes the format. *)
Theorem main_rejects_format (env : Env) (cfg : Flags) (fuel : nat) (w : World) :
  outfmt cfg <> "vhdx" -> outfmt cfg <> "tar" ->
  main env cfg fuel w =
    (Some (Fatal (if String.eqb (outfmt cfg) "zip" then Print [zipFormatMessage]
                  else Printf badFormatMessage [outfmt cfg])), w).
Proof.
  intros Hv Ht. unfold main, formatRefused.
  apply String.eqb_neq in Hv, Ht. rewrite Hv, Ht. cbn [orb].
  destruct (String.eqb (outfmt cfg) "zip"); reflexivity.
Qed.

Lemma main_checked (env : Env) (cfg : Flags) (fuel : nat) (w : World) :
  formatRefused cfg = None ->
  outzip cfg && compact cfg = false ->
  main env cfg fuel w =
    (let '(r, w1) := distroCheck env cfg fuel (distro cfg) w in
     match r with
     | None => (None, w1)
     | Some (_, Some err) => (Some (Fatal (Print [err])), w1)
     | Some (d, None) =>
       if negb d then
         (Some (Fatal (Printf notFoundMessage [distro cfg; wsl; wslList])), w1)
       else
         let '(err, w2) :=
           wslExport env (distro cfg) (outfmt cfg) (exportPath env cfg) w1 in
         match err with
         | Some e => (Some (Fatal (Print [e])), w2)
         | None =>
           let '(t, w3) := postProcess env cfg (exportPath env cfg) w2 in
           (Some t, w3)
         end
     end).
Proof.
  intros Hf Hb. unfold main. rewrite Hf, Hb. unfold bind at 1.
  destruct (distroCheck env cfg fuel (distro cfg) w) as [[[d [err|]]|] w1];
    try reflexivity.
  destruct d; [|reflexivity]. cbn [negb]. fold (exportPath env cfg).
  unfold bind at 1.
  destruct (wslExport env _ _ _ w1) as [[e|] w2]; [reflexivity|].
  unfold bind, ret. now destruct (postProcess env cfg (exportPath env cfg) w2).
Qed.

(** When the listing is read and no record matches the distribution,
    [main] ends in [log.Fatal] with the not-found message, having run the
    listing command only: nothing is exported. *)
Theorem main_not_found (env : Env) (cfg : Flags) (fuel : nat) (w : World)
  (raw : string) (fs : Files) :
  formatRefused cfg = None ->
  outzip cfg && compact cfg = false ->
  host env (spawned w ++ [wslInvocation wslList]) (files w) = (Exited raw None, fs) ->
  find (nameMatches env (distro cfg)) (registry (fst (decodeOutput raw))) = None ->
  main env cfg (S fuel) w
  = (Some (Fatal (Printf notFoundMessage [distro cfg; wsl; wslList])),
     afterRun w (wslInvocation wslList) fs).
Proof.
  intros Hf Hb H F. rewrite (main_checked _ _ _ _ Hf Hb).
  now rewrite (distroCheck_listed _ _ _ _ _ _ _ H), F.
Qed.

Lemma main_stopped (env : Env) (cfg : Flags) (fuel : nat) (w : World)
  (raw : string) (fs1 fs2 : Files) (nfo : dinfo) (o : ProcOutcome) :
  let L := wslInvocation wslList in
  let X := wslInvocation (exportCommand (distro cfg) (outfmt cfg) (exportPath env cfg)) in
  let w2 :=
    {| spawned := spawned w ++ [L; X];
       logged := logged w ++
         [Printf exporting [distro cfg; exportPath env cfg; outfmt cfg];
          match outcomeError o with
          | Some _ => Printf ("Failed: %s" ++ nl) [outcomeOutput o]
          | None => Printf "Export suceeded: %s" [fst (decodeOutput (outcomeOutput o))]
          end];
       files := fs2; fsops := fsops w |} in
  formatRefused cfg = None ->
  outzip cfg && compact cfg = false ->
  host env (spawned w ++ [L]) (files w) = (Exited raw None, fs1) ->
  find (nameMatches env (distro cfg)) (registry (fst (decodeOutput raw))) = Some nfo ->
  state nfo = "Stopped" ->
  host env (spawned w ++ [L; X]) fs1 = (o, fs2) ->
  main env cfg (S fuel) w =
    match outcomeError o with
    | Some e => (Some (Fatal (Print [e])), w2)
    | None =>
      let '(t, w3) := postProcess env cfg (exportPath env cfg) w2 in (Some t, w3)
    end.
Proof.
  intros L X w2 Hf Hb H1 F Hs H2. rewrite (main_checked _ _ _ _ Hf Hb).
  rewrite (distroCheck_listed _ _ _ _ _ _ _ H1), F.
  unfold matched. rewrite Hs. cbn [String.eqb Ascii.eqb Bool.eqb ret negb].
  rewrite (wslExport_run env (distro cfg) (outfmt cfg) (exportPath env cfg) _ o fs2).
  2:{ unfold afterRun. cbn [spawned files]. fold L X. rewrite <- app_assoc. exact H2. }
  assert (E : afterLog
    (afterRun (afterRun w (wslInvocation wslList) fs1)
       (wslInvocation (exportCommand (distro cfg) (outfmt cfg) (exportPath env cfg))) fs2)
    [Printf exporting [distro cfg; exportPath env cfg; outfmt cfg];
     match outcomeError o with
     | Some _ => Printf ("Failed: %s" ++ nl) [outcomeOutput o]
     | None => Printf "Export suceeded: %s" [fst (decodeOutput (outcomeOutput o))]
     end] = w2).
  { unfold afterLog, afterRun, w2. cbn [spawned logged files fsops]. fold L X.
    now rewrite <- app_assoc. }
  rewrite E. destruct (outcomeError o); reflexivity.
Qed.

(** When the distribution is listed as [Stopped] and the export command
    fails, [main] ends in [log.Fatal] with the error of the command after
    the [Failed] entry: two commands were run, and no file operation and no
    compression follows. *)
Theorem main_export_failure (env : Env) (cfg : Flags) (fuel : nat) (w : World)
  (raw : string) (fs1 fs2 : Files) (nfo : dinfo) (o : ProcOutcome) (e : error) :
  let L := wslInvocation wslList in
  let X := wslInvocation (exportCommand (distro cfg) (outfmt cfg) (exportPath env cfg)) in
  formatRefused cfg = None ->
  outzip cfg && compact cfg = false ->
  host env (spawned w ++ [L]) (files w) = (Exited raw None, fs1) ->
  find (nameMatches env (distro cfg)) (registry (fst (decodeOutput raw))) = Some nfo ->
  state nfo = "Stopped" ->
  host env (spawned w ++ [L; X]) fs1 = (o, fs2) ->
  outcomeError o = Some e ->
  main env cfg (S fuel) w =
    (Some (Fatal (Print [e])),
     {| spawned := spawned w ++ [L; X];
        logged := logged w ++
          [Printf exporting [distro cfg; exportPath env cfg; outfmt cfg];
           Printf ("Failed: %s" ++ nl) [outcomeOutput o]];
        files := fs2; fsops := fsops w |}).
Proof.
  intros L X Hf Hb H1 F Hs H2 He.
  rewrite (main_stopped env cfg fuel w raw fs1 fs2 nfo o Hf Hb H1 F Hs H2).
  now rewrite He.
Qed.

(** A whole run without compression: with neither [-z] nor [-c], the
    distribution listed as [Stopped] and the export exiting with status
    zero, [main] returns normally; it has run the listing and the export
    command, logged the two entries of the export, made no file operation
    of its own, and the files are as the export command left them. *)
Theorem main_plain_backup (env : Env) (cfg : Flags) (fuel : nat) (w : World)
  (raw out : string) (fs1 fs2 : Files) (nfo : dinfo) :
  let L := wslInvocation wslList in
  let X := wslInvocation (exportCommand (distro cfg) (outfmt cfg) (exportPath env cfg)) in
  formatRefused cfg = None ->
  outzip cfg = false -> compact cfg = false ->
  host env (spawned w ++ [L]) (files w) = (Exited raw None, fs1) ->
  find (nameMatches env (distro cfg)) (registry (fst (decodeOutput raw))) = Some nfo ->
  state nfo = "Stopped" ->
  host env (spawned w ++ [L; X]) fs1 = (Exited out None, fs2) ->
  main env cfg (S fuel) w =
    (Some Returned,
     {| spawned := spawned w ++ [L; X];
        logged := logged w ++
          [Printf exporting [distro cfg; exportPath env cfg; outfmt cfg];
           Printf "Export suceeded: %s" [fst (decodeOutput out)]];
        files := fs2; fsops := fsops w |}).
Proof.
  intros L X Hf Hz Hc H1 F Hs H2.
  assert (Hb : outzip cfg && compact cfg = false) by now rewrite Hz.
  rewrite (main_stopped env cfg fuel w raw fs1 fs2 nfo _ Hf Hb H1 F Hs H2).
  cbn [outcomeError outcomeOutput]. unfold postProcess. now rewrite Hz, Hc.
Qed.

(** ** What becomes of the exported file *)

(** What becomes of the exported file under [-z] (lines 243-254): it is
    gone exactly when [zipFile] returned no error, [-keep] is not set and
    [os.Remove] succeeded; in every other case it holds what it held.  The
    result of [os.Remove] is not looked at. *)
Theorem postProcess_zip_original (env : Env) (cfg : Flags) (of_ : string) (w : World) :
  outzip cfg = true ->
  files (snd (postProcess env cfg of_ w)) of_ =
    match fst (zipFile env of_ w) with
    | Some _ => files w of_
    | None =>
      if keep cfg then files w of_
      else match removeFails env of_ with
           | Some _ => files w of_
           | None => None
           end
    end.
Proof.
  intros Hz. unfold postProcess. rewrite Hz. unfold bind at 1.
  pose proof (zipFile_keeps_original env of_ w) as K.
  destruct (zipFile env of_ w) as [[e|] w1]; cbn [fst snd] in *; [exact K|].
  destruct (keep cfg); cbn [negb]; [exact K|].
  unfold osRemove, fsop, setFile, ret, writeFile, bind.
  destruct (removeFails env of_); cbn [snd files fst]; [exact K|].
  now rewrite String.eqb_refl.
Qed.

Lemma rangeDistros_term_only (env : Env) (cfg cfg' : Flags)
  (again again' : M Checked) (target : string) (distros : list string) :
  term cfg = term cfg' ->
  (forall w, again w = again' w) ->
  forall i w,
    rangeDistros env cfg again target i distros w
    = rangeDistros env cfg' again' target i distros w.
Proof.
  intros Ht Ha. induction distros as [|d rest IH]; intros i w; [reflexivity|].
  cbn [rangeDistros]. destruct (i =? 0)%nat; [apply IH|].
  destruct (strings.EqualFold _ _ _); [|apply IH].
  unfold matched. rewrite <- Ht.
  destruct (String.eqb (state (lineInfo d)) "Stopped"); [reflexivity|].
  destruct (term cfg); [|reflexivity].
  unfold bind. destruct (logTo _ w) as [u w1].
  destruct (wslCmd env _ w1) as [[out [e|]] w2]; [reflexivity | apply Ha].
Qed.

Lemma distroCheck_term_only (env : Env) (cfg cfg' : Flags) (target : string) :
  term cfg = term cfg' ->
  forall fuel w,
    distroCheck env cfg fuel target w = distroCheck env cfg' fuel target w.
Proof.
  intros Ht. induction fuel as [|fuel IH]; intros w; [reflexivity|].
  cbn [distroCheck]. unfold bind.
  destruct (wslCmd env wslList w) as [[res [e|]] w1]; [reflexivity|].
  now apply rangeDistros_term_only.
Qed.

(** [-keep] has no effect without [-z]: the run of [main] is the same
    whatever its value. *)
Theorem keep_ignored_without_zip (env : Env) (cfg : Flags) (b : bool)
  (fuel : nat) (w : World) :
  outzip cfg = false ->
  main env (withKeep b cfg) fuel w = main env cfg fuel w.
Proof.
  intros Hz. unfold main, formatRefused, postProcess.
  cbn [withKeep distro outfile outfmt outzip term compact keep]. rewrite Hz.
  destruct (String.eqb (outfmt cfg) "vhdx" || String.eqb (outfmt cfg) "tar");
    [|reflexivity].
  cbn [andb]. unfold bind at 1 3.
  rewrite (distroCheck_term_only env (withKeep b cfg) cfg (distro cfg) eq_refl).
  reflexivity.
Qed.

(** ** The archive, path by path *)

(** [zipFile] writes to one path only, the archive [fn.zip]: every other
    file holds afterwards what it held before, whatever fails. *)
Theorem zipFile_writes_archive_only (env : Env) (fn p : string) (w : World) :
  p <> fn ++ ".zip" ->
  files (snd (zipFile env fn w)) p = files w p.
Proof.
  intros Hp. apply String.eqb_neq in Hp.
  unfold zipFile, osCreate, zipCreate, osOpen, ioCopy, zipClose, fileClose,
    bind, ret, logTo, fsop, setFile, readFile, writeFile.
  cbn [files spawned logged fsops snd fst].
  destruct (createFails env (fn ++ ".zip")); [reflexivity|].
  cbn [files spawned logged fsops snd fst].
  destruct (entryFails env fn); cbn [files snd fst];
    rewrite ?Hp, ?eqb_zip_name; [reflexivity|].
  destruct (files w fn) as [data|]; cbn [files snd fst];
    rewrite ?Hp; [|reflexivity].
  destruct (openFails env fn); cbn [files snd fst];
    rewrite ?Hp; [reflexivity|].
  destruct (readFails env fn); cbn [files spawned logged fsops snd fst];
    destruct (zipCloseFails env (fn ++ ".zip"));
    cbn [files spawned logged fsops snd fst]; rewrite ?Hp;
    try reflexivity;
    destruct (closeFails env fn); cbn [files snd fst];
    now rewrite ?Hp.
Qed.

(** When the file to compress does not exist, [zipFile] returns the error
    of [os.Open] behind its prefix, and it has already created the archive:
    the file [fn.zip] is left behind, and neither the archive writer nor the
    archive file is closed. *)
Theorem zipFile_missing_original (env : Env) (fn : string) (w : World) :
  files w fn = None ->
  createFails env (fn ++ ".zip") = None ->
  entryFails env fn = None ->
  fst (zipFile env fn w) = Some ("error opening exported file: " ++ notExist fn)
  /\ files (snd (zipFile env fn w)) (fn ++ ".zip") <> None
  /\ fsops (snd (zipFile env fn w))
     = (fsops w ++ [OpCreate (fn ++ ".zip"); OpZipEntry (fn ++ ".zip") fn; OpOpen fn])%list.
Proof.
  intros Hf Hc He.
  unfold zipFile, osCreate, zipCreate, osOpen, bind, ret, logTo, fsop, setFile,
    readFile, writeFile.
  cbn [files spawned logged fsops snd fst].
  rewrite Hc. cbn [files spawned logged fsops snd fst].
  rewrite He. cbn [files spawned logged fsops snd fst].
  rewrite eqb_zip_name, Hf. cbn [files spawned logged fsops snd fst].
  rewrite String.eqb_refl, <- !app_assoc.
  split; [reflexivity|]. split; [discriminate | reflexivity].
Qed.

(** The test of line 91 on ASCII names: the listed name matches the target
    exactly when the two are equal once their letters A-Z are lowered, and
    the result does not depend on the fold tables of the environment. *)
Theorem nameMatches_ascii (env env' : Env) (target : string) (nfo : dinfo) :
  isASCII (name nfo) = true -> isASCII target = true ->
  nameMatches env target nfo = String.eqb (lowerASCII (name nfo)) (lowerASCII target)
  /\ nameMatches env target nfo = nameMatches env' target nfo.
Proof.
  intros Hn Ht. unfold nameMatches. now rewrite !EqualFold_ascii.
Qed.

(** Without [-t], [distroCheck] returns after the listing command,
    whatever that command does: one round is enough, and the listing is the
    only command run. *)
Theorem distroCheck_without_term_returns (env : Env) (cfg : Flags) (fuel : nat)
  (target : string) (w : World) :
  term cfg = false ->
  exists r,
    distroCheck env cfg (S fuel) target w
    = (Some r,
       afterRun w (wslInvocation wslList)
         (snd (host env (spawned w ++ [wslInvocation wslList]) (files w)))).
Proof.
  intros Hterm.
  destruct (host env (spawned w ++ [wslInvocation wslList]) (files w)) as [o fs] eqn:H.
  cbn [snd].
  destruct (outcomeError o) as [e|] eqn:E.
  - exists (false, Some e). cbn [distroCheck]. unfold bind at 1.
    now rewrite (wslCmd_failed _ _ _ _ _ _ E H).
  - destruct o as [e|e|e|raw [e|]]; try discriminate.
    rewrite (distroCheck_listed _ _ _ _ _ _ _ H).
    destruct (find _ _) as [nfo|]; [|now eexists].
    unfold matched. rewrite Hterm.
    destruct (String.eqb (state nfo) "Stopped"); now eexists.
Qed.

Lemma rangeDistros_more_fuel (env : Env) (cfg : Flags) (again again' : M Checked)
  (target : string) (distros : list string) :
  (forall w r w', again w = (Some r, w') -> again' w = (Some r, w')) ->
  forall i w r w',
    rangeDistros env cfg again target i distros w = (Some r, w') ->
    rangeDistros env cfg again' target i distros w = (Some r, w').
Proof.
  intros Ha. induction distros as [|d rest IH]; intros i w r w'; [trivial|].
  cbn [rangeDistros]. destruct (i =? 0)%nat; [apply IH|].
  destruct (strings.EqualFold _ _ _); [|apply IH].
  unfold matched.
  destruct (String.eqb (state (lineInfo d)) "Stopped"); [trivial|].
  destruct (term cfg); [|trivial].
  unfold bind. destruct (logTo _ w) as [u w1].
  destruct (wslCmd env _ w1) as [[out [e|]] w2]; [trivial | apply Ha].
Qed.

(** The bound on the rounds decides nothing but whether the end is
    reached: once [distroCheck] returns within [fuel] rounds, it returns the
    same result in the same world with any larger bound. *)
Lemma distroCheck_more_fuel (env : Env) (cfg : Flags) (target : string) :
  forall fuel extra w r w',
    distroCheck env cfg fuel target w = (Some r, w') ->
    distroCheck env cfg (fuel + extra) target w = (Some r, w').
Proof.
  induction fuel as [|fuel IH]; intros extra w r w'; [discriminate|].
  cbn [distroCheck Nat.add]. unfold bind.
  destruct (wslCmd env wslList w) as [[res [e|]] w1]; [trivial|].
  apply rangeDistros_more_fuel. intros w0 r0 w0'. apply IH.
Qed.

Lemma compactFile_run (env : Env) (fn : string) (w : World)
  (o : ProcOutcome) (fs : Files) :
  host env (spawned w ++ [compactInvocation fn]) (files w) = (o, fs) ->
  compactFile env fn w
  = (compactError o,
     afterLog (afterRun w (compactInvocation fn) fs)
       match compactError o with
       | Some _ => []
       | None => [Println ["Compression completed successfully."]]
       end).
Proof.
  intros H. unfold compactFile, bind, run. fold (compactInvocation fn). rewrite H.
  unfold afterLog, afterRun, ret, logTo. cbn [spawned logged files fsops].
  destruct o as [e|e|e|out [e|]]; cbn [compactError outcomeError];
    try (now rewrite app_nil_r).
  destruct (strings.Contains out compactedPhrase);
    [reflexivity | now rewrite app_nil_r].
Qed.

(** [compactFile] whatever [compact] does: it returns no error exactly
    when the command exited with status zero and its output contains the
    confirmation phrase.  In every case it has run the one command
    [compact /c fn], with [fn] as a single argument, the files are as the
    command left them, and it made no file operation of its own. *)
Theorem compactFile_succeeds_iff (env : Env) (fn : string) (w : World)
  (o : ProcOutcome) (fs : Files) :
  host env (spawned w ++ [compactInvocation fn]) (files w) = (o, fs) ->
  (fst (compactFile env fn w) = None
   <-> exists out, o = Exited out None
                   /\ strings.Contains out compactedPhrase = true)
  /\ spawned (snd (compactFile env fn w)) = (spawned w ++ [compactInvocation fn])%list
  /\ files (snd (compactFile env fn w)) = fs
  /\ fsops (snd (compactFile env fn w)) = fsops w.
Proof.
  intros H. rewrite (compactFile_run _ _ _ _ _ H). cbn [fst snd].
  split; [|repeat split].
  destruct o as [e|e|e|out [e|]]; cbn [compactError outcomeError];
    try (split; [discriminate | intros [x [X _]]; discriminate]).
  destruct (strings.Contains out compactedPhrase) eqn:C.
  - split; [intros _; now exists out | reflexivity].
  - split; [discriminate|]. intros [x [X Hx]]. inversion X; subst. congruence.
Qed.

(** A whole run with [-c]: after a successful export [main] runs
    [compact /c] on the exported path as its third command; it returns
    normally when [compactFile] succeeds, and otherwise ends in
    [log.Fatalf] with the error of [compactFile].  The exported file is not
    removed in either case: [main] makes no file operation. *)
Theorem main_compact_backup (env : Env) (cfg : Flags) (fuel : nat) (w : World)
  (raw out : string) (fs1 fs2 fs3 : Files) (nfo : dinfo) (o : ProcOutcome) :
  let L := wslInvocation wslList in
  let X := wslInvocation (exportCommand (distro cfg) (outfmt cfg) (exportPath env cfg)) in
  let C := compactInvocation (exportPath env cfg) in
  formatRefused cfg = None ->
  outzip cfg = false -> compact cfg = true ->
  host env (spawned w ++ [L]) (files w) = (Exited raw None, fs1) ->
  find (nameMatches env (distro cfg)) (registry (fst (decodeOutput raw))) = Some nfo ->
  state nfo = "Stopped" ->
  host env (spawned w ++ [L; X]) fs1 = (Exited out None, fs2) ->
  host env (spawned w ++ [L; X; C]) fs2 = (o, fs3) ->
  main env cfg (S fuel) w =
    (Some match compactError o with
          | Some e => Fatal (Printf "Error compacting file: %v" [e])
          | None => Returned
          end,
     {| spawned := spawned w ++ [L; X; C];
        logged := logged w ++
          [Printf exporting [distro cfg; exportPath env cfg; outfmt cfg];
           Printf "Export suceeded: %s" [fst (decodeOutput out)]]
          ++ match compactError o with
             | Some _ => []
             | None => [Println ["Compression completed successfully."]]
             end;
        files := fs3; fsops := fsops w |}).
Proof.
  intros L X C Hf Hz Hc H1 F Hs H2 H3.
  assert (Hb : outzip cfg && compact cfg = false) by now rewrite Hz.
  rewrite (main_stopped env cfg fuel w raw fs1 fs2 nfo _ Hf Hb H1 F Hs H2).
  cbn [outcomeError outcomeOutput]. unfold postProcess. rewrite Hz, Hc.
  unfold bind. rewrite (compactFile_run env _ _ o fs3).
  2:{ cbn [spawned files]. fold L X C.
      replace ((spawned w ++ [L; X]) ++ [C])%list with (spawned w ++ [L; X; C])%list
        by now rewrite <- app_assoc.
      exact H3. }
  unfold afterLog, afterRun, ret. cbn [spawned logged files fsops]. fold L X C.
  rewrite <- !app_assoc. cbn [app].
  destruct (compactError o); reflexivity.
Qed.

(** ** Examples for the further properties *)

Lemma export_argv_witness :
  argv (wslInvocation (exportCommand "kali-linux" "vhdx" "my backup.vhdx"))
  = ["--export"; "kali-linux"; "--vhd"; "my"; "backup.vhdx"].
Proof. exact (export_argv "kali-linux" "vhdx" "my backup.vhdx" eq_refl). Defined.

Lemma nameMatches_ascii_witness :
  nameMatches busyHost "KALI-Linux" kaliStopped = true.
Proof.
  exact (proj1 (nameMatches_ascii busyHost busyHost "KALI-Linux" kaliStopped
                  eq_refl eq_refl)).
Defined.

Lemma decodeOutput_wide_witness :
  decodeOutput (wide header) = (header, None)
  /\ decodeOutput (bomLE ++ wide header) = (header, None).
Proof. exact (decodeOutput_wide header eq_refl). Defined.

Lemma registry_of_wsl_output_witness :
  registry (fst (decodeOutput (listing [rowUbuntu; rowKaliStopped])))
  = [{| name := "Ubuntu"; state := "Running"; version := "2" |}; kaliStopped; emptyInfo].
Proof.
  exact (registry_of_wsl_output header [rowUbuntu; rowKaliStopped]
           ltac:(repeat constructor) ltac:(repeat constructor)).
Defined.

Lemma wslExport_outcome_witness :
  wslExport noCommands "kali-linux" "tar" "backup.tar" emptyWorld
  = (Some "exec: no such command",
     {| spawned := [wslInvocation "--export kali-linux backup.tar"];
        logged := [Printf exporting ["kali-linux"; "backup.tar"; "tar"];
                   Printf ("Failed: %s" ++ nl) [""]];
        files := files emptyWorld; fsops := [] |}).
Proof.
  exact (wslExport_outcome noCommands "kali-linux" "tar" "backup.tar" emptyWorld
           (StartFailed "exec: no such command") (files emptyWorld) eq_refl).
Defined.

Lemma distroCheck_listing_fails_witness :
  distroCheck noCommands forceStop 1 "kali-linux" emptyWorld
  = (Some (false, Some "exec: no such command"),
     afterRun emptyWorld (wslInvocation wslList) (files emptyWorld)).
Proof.
  exact (distroCheck_listing_fails noCommands forceStop 0 "kali-linux" emptyWorld
           (StartFailed "exec: no such command") "exec: no such command"
           (files emptyWorld) eq_refl eq_refl).
Defined.

Lemma distroCheck_terminate_fails_witness :
  distroCheck terminateFailing forceStop 1 "Kali-Linux" emptyWorld
  = (Some (false, Some "exit status 1"),
     {| spawned := [wslInvocation wslList; wslInvocation "--terminate kali-linux"];
        logged := [Printf terminating ["kali-linux"]];
        files := files emptyWorld; fsops := [] |}).
Proof.
  exact (distroCheck_terminate_fails terminateFailing forceStop 0 "Kali-Linux"
           emptyWorld (listing [rowUbuntu; rowKaliRunning]) (files emptyWorld)
           (files emptyWorld) kaliRunning (Exited "" (Some "exit status 1"))
           "exit status 1" eq_refl eq_refl eq_refl ltac:(discriminate) eq_refl eq_refl).
Defined.

Lemma distroCheck_never_concludes_witness :
  fst (distroCheck stubbornHost forceStop 3 "Kali-Linux" emptyWorld) = None
  /\ List.length (spawned (snd (distroCheck stubbornHost forceStop 3 "Kali-Linux"
                                  emptyWorld))) = 6%nat.
Proof.
  exact (distroCheck_never_concludes stubbornHost forceStop "Kali-Linux"
           (listing [rowUbuntu; rowKaliRunning]) kaliRunning
           eq_refl (fun _ _ => eq_refl) eq_refl ltac:(discriminate) 3%nat emptyWorld).
Defined.

Lemma distroCheck_single_line_witness :
  distroCheck noTable defaults 1 "kali-linux" emptyWorld
  = (Some (false, None), afterRun emptyWorld (wslInvocation wslList) (files emptyWorld)).
Proof.
  exact (distroCheck_single_line noTable defaults 0 "kali-linux" emptyWorld
           (wide "Windows Subsystem for Linux has no installed distributions.")
           (files emptyWorld) eq_refl eq_refl).
Defined.

Lemma distroCheck_without_term_returns_witness :
  exists r,
    distroCheck busyHost defaults 1 "kali-linux" emptyWorld
    = (Some r,
       afterRun emptyWorld (wslInvocation wslList)
         (snd (host busyHost (spawned emptyWorld ++ [wslInvocation wslList])
                 (files emptyWorld)))).
Proof.
  exact (distroCheck_without_term_returns busyHost defaults 0 "kali-linux" emptyWorld
           eq_refl).
Defined.

Lemma main_rejects_format_witness :
  main busyHost zipFormat 1 emptyWorld
  = (Some (Fatal (Print [zipFormatMessage])), emptyWorld).
Proof.
  exact (main_rejects_format busyHost zipFormat 1 emptyWorld
           ltac:(discriminate) ltac:(discriminate)).
Defined.

Lemma main_not_found_witness :
  main busyHost debian 1 emptyWorld
  = (Some (Fatal (Printf notFoundMessage ["debian"; wsl; wslList])),
     afterRun emptyWorld (wslInvocation wslList) (files emptyWorld)).
Proof.
  exact (main_not_found busyHost debian 0 emptyWorld
           (listing [rowUbuntu; rowKaliRunning]) (files emptyWorld)
           eq_refl eq_refl eq_refl eq_refl).
Defined.

Lemma main_export_failure_witness :
  fst (main diskFull plainFlags 1 emptyWorld) = Some (Fatal (Print ["exit status 1"])).
Proof.
  exact (f_equal fst
           (main_export_failure diskFull plainFlags 0 emptyWorld
              (listing [rowUbuntu; rowKaliStopped]) (files emptyWorld) (files emptyWorld)
              kaliStopped
              (Exited (wide "There is not enough space on the disk.") (Some "exit status 1"))
              "exit status 1" eq_refl eq_refl eq_refl eq_refl eq_refl eq_refl eq_refl)).
Defined.

Lemma main_plain_backup_witness :
  fst (main backupHost plainFlags 1 emptyWorld) = Some Returned
  /\ files (snd (main backupHost plainFlags 1 emptyWorld)) "backup.vhdx" = Some exported.
Proof.
  pose proof (main_plain_backup backupHost plainFlags 0 emptyWorld
                (listing [rowUbuntu; rowKaliStopped]) "" (files emptyWorld)
                (files withExport) kaliStopped
                eq_refl eq_refl eq_refl eq_refl eq_refl eq_refl eq_refl) as H.
  split; [exact (f_equal fst H) | exact (f_equal (fun r => files (snd r) "backup.vhdx") H)].
Defined.

Lemma main_compact_backup_witness :
  fst (main compactHost compactFlags 1 emptyWorld) = Some Returned.
Proof.
  exact (f_equal fst
           (main_compact_backup compactHost compactFlags 0 emptyWorld
              (listing [rowUbuntu; rowKaliStopped]) "" (files emptyWorld)
              (files withExport) (files withExport) kaliStopped
              (Exited compactDone None)
              eq_refl eq_refl eq_refl eq_refl eq_refl eq_refl eq_refl eq_refl)).
Defined.

Lemma postProcess_zip_original_witness :
  files (snd (postProcess backupHost zipFlags "backup.vhdx" withExport)) "backup.vhdx"
  = None.
Proof.
  exact (postProcess_zip_original backupHost zipFlags "backup.vhdx" withExport eq_refl).
Defined.

Lemma keep_ignored_without_zip_witness :
  main compactHost (withKeep true compactFlags) 1 emptyWorld
  = main compactHost compactFlags 1 emptyWorld.
Proof.
  exact (keep_ignored_without_zip compactHost compactFlags true 1 emptyWorld eq_refl).
Defined.

Lemma zipFile_writes_archive_only_witness :
  files (snd (zipFile backupHost "backup.vhdx" withExport)) "other.vhdx"
  = files withExport "other.vhdx".
Proof.
  exact (zipFile_writes_archive_only backupHost "backup.vhdx" "other.vhdx" withExport
           ltac:(discriminate)).
Defined.

Lemma zipFile_missing_original_witness :
  fst (zipFile backupHost "backup.vhdx" emptyWorld)
  = Some ("error opening exported file: " ++ notExist "backup.vhdx")
  /\ files (snd (zipFile backupHost "backup.vhdx" emptyWorld)) "backup.vhdx.zip" <> None.
Proof.
  pose proof (zipFile_missing_original backupHost "backup.vhdx" emptyWorld
                eq_refl eq_refl eq_refl) as [H1 [H2 _]].
  exact (conj H1 H2).
Defined.

Lemma zipFile_complete_witness :
  fst (zipFile backupHost "backup.vhdx" withExport) = None
  /\ files (snd (zipFile backupHost "backup.vhdx" withExport)) "backup.vhdx.zip"
     = Some (zipArchive backupHost [("backup.vhdx", exported)]).
Proof.
  exact (zipFile_complete backupHost "backup.vhdx" withExport exported
           eq_refl eq_refl eq_refl eq_refl eq_refl eq_refl eq_refl).
Defined.

Lemma compactFile_succeeds_iff_witness :
  fst (compactFile compacting "backup.vhdx" emptyWorld) = None.
Proof.
  exact (proj2 (proj1 (compactFile_succeeds_iff compacting "backup.vhdx" emptyWorld
                         (Exited compactDone None) (files emptyWorld) eq_refl))
           (ex_intro _ compactDone (conj eq_refl eq_refl))).
Defined.
